(** * cyber_care: event propagator and event consumer

    A shallow embedding of [cybercare/event_consumer.py] and
    [cybercare/event_propagator.py].

    Python objects decoded from JSON or YAML are values of type [value].
    Code that can raise is written in a state-and-exception monad over the
    part of the outside world the code touches (database files, text
    sources, the random generator).  Calls to [print] only write to
    standard output and are left out, except where evaluating their
    arguments can raise. *)

From stdpp Require Import gmap strings list fin_maps.
From Stdlib Require Import ZArith Lia Sorted.
From Stdlib Require Floats.SpecFloat.

Set Warnings "-register-all".
Local Open Scope Z_scope.

(** ** Python values *)

(** What [json.loads] and [yaml.safe_load] hand back: [None], [bool],
    [int], [float], [str], [list] and [dict] with string keys. *)
Inductive value :=
| VNone
| VBool (b : bool)
| VInt (n : Z)
| VFloat (f : SpecFloat.spec_float)
| VStr (s : string)
| VList (l : list value)
| VDict (d : gmap string value).

(** [type(v).__name__] *)
Definition type_name (v : value) : string :=
  match v with
  | VNone => "NoneType"
  | VBool _ => "bool"
  | VInt _ => "int"
  | VFloat _ => "float"
  | VStr _ => "str"
  | VList _ => "list"
  | VDict _ => "dict"
  end.

(** [bool(v)]: the truth value tested by [if v] and [not v]. *)
Definition truthy (v : value) : bool :=
  match v with
  | VNone => false
  | VBool b => b
  | VInt n => negb (n =? 0)
  | VFloat f => match f with SpecFloat.S754_zero _ => false | _ => true end
  | VStr s => negb (String.length s =? 0)%nat
  | VList l => negb (length l =? 0)%nat
  | VDict d => negb (size d =? 0)%nat
  end.

(** ** Exceptions *)

(** One line of a pydantic [ValidationError]: the field, the kind of
    violation and the offending input. *)
Inductive error_type := missing | string_type.

Record ErrorDetails := {
  loc : string;
  type : error_type;
  input : value
}.

(** The exception classes the two programs can meet.  [TypeError] and
    [AttributeError] carry the type name of the offending object instead of
    the interpreter's full message. *)
Inductive exn :=
| JSONDecodeError (msg : string)
| UnicodeDecodeError (msg : string)
| YAMLError (msg : string)
| ValidationError (errors : list ErrorDetails)
| HTTPException (status_code : Z) (detail : string)
| FileNotFoundError (filename : string)
| KeyError (key : value)
| IndexError
| TypeError (of_type : string)
| AttributeError (of_type : string)
| OperationalError (msg : string)
| DatabaseError (msg : string)
| UnicodeEncodeError (reason : string)
| ValueError (msg : string)
| OverflowError (msg : string)
| UnsupportedProtocol (url : string).

(** ** State and exceptions *)

(** A computation over a world [W]: it returns or raises, and in both
    cases leaves a world behind. *)
Inductive res (W A : Type) :=
| Return (a : A) (w : W)
| Raise (e : exn) (w : W).
Arguments Return {W A} a w.
Arguments Raise {W A} e w.

Definition M (W A : Type) : Type := W -> res W A.

Definition ret {W A} (a : A) : M W A := fun w => Return a w.
Definition raise {W A} (e : exn) : M W A := fun w => Raise e w.
Definition bind {W A B} (m : M W A) (k : A -> M W B) : M W B :=
  fun w => match m w with
           | Return a w' => k a w'
           | Raise e w' => Raise e w'
           end.
(** [try: m  except <clauses h>]: [h e = None] means no clause matches
    [e], which then propagates. *)
Definition try_except {W A} (m : M W A) (h : exn -> option (M W A)) : M W A :=
  fun w => match m w with
           | Return a w' => Return a w'
           | Raise e w' => match h e with
                           | Some k => k w'
                           | None => Raise e w'
                           end
           end.
Definition lift {W A} (r : exn + A) : M W A :=
  match r with inl e => raise e | inr a => ret a end.

Declare Scope py_scope.
Delimit Scope py_scope with py.
Notation "x <- m ;; k" := (bind m (fun x => k))
  (at level 100, m at next level, right associativity) : py_scope.
Notation "m ;;; k" := (bind m (fun _ => k))
  (at level 100, right associativity) : py_scope.
Local Open Scope py_scope.

Definition world_of {W A} (r : res W A) : W :=
  match r with Return _ w => w | Raise _ w => w end.

(** ** Text *)

(** A Python [str] is held as the bytes of its UTF-8 encoding.  A lone
    surrogate, which UTF-8 cannot encode, is held as the three bytes
    [ED], [A0..BF], [80..BF] that the [surrogatepass] handler writes. *)

Definition byte_in (lo hi : nat) (c : Ascii.ascii) : bool :=
  ((lo <=? Ascii.nat_of_ascii c) && (Ascii.nat_of_ascii c <=? hi))%nat.

(** Whether a [str] holds a lone surrogate. *)
Fixpoint has_surrogate (s : string) : bool :=
  match s with
  | String a (String b _ as rest) =>
      (byte_in 237 237 a && byte_in 160 191 b) || has_surrogate rest
  | _ => false
  end.

(** Whether [s.encode('utf-8')] succeeds. *)
Definition encodable (s : string) : bool := negb (has_surrogate s).

(** The continuation bytes a byte string starts with, and the code points
    after them, each with its own bytes. *)
Fixpoint split_points (s : string) : string * list string :=
  match s with
  | EmptyString => (EmptyString, [])
  | String c rest =>
      let '(continuation, points) := split_points rest in
      if byte_in 128 191 c then (String c continuation, points)
      else (EmptyString, String c continuation :: points)
  end.

(** The characters of a [str]. *)
Definition code_points (s : string) : list string := (split_points s).2.

(** ** Subscripts and [dict.get] *)

(** [v[key]] for a string key. *)
Definition getitem (v : value) (key : string) : exn + value :=
  match v with
  | VDict d => match d !! key with
               | Some x => inr x
               | None => inl (KeyError (VStr key))
               end
  | _ => inl (TypeError (type_name v))
  end.

(** [v.get(key, default)] *)
Definition dict_get (v : value) (key : string) (dflt : value) : exn + value :=
  match v with
  | VDict d => inr (default dflt (d !! key))
  | _ => inl (AttributeError (type_name v))
  end.

(** [v[key] = x], giving the updated object. *)
Definition setitem (v : value) (key : string) (x : value) : exn + value :=
  match v with
  | VDict d => inr (VDict (<[key := x]> d))
  | _ => inl (TypeError (type_name v))
  end.

(** [len(v)] *)
Definition py_len (v : value) : exn + nat :=
  match v with
  | VStr s => inr (length (code_points s))
  | VList l => inr (length l)
  | VDict d => inr (size d)
  | _ => inl (TypeError (type_name v))
  end.

(** ** The SQLite store behind [DatabaseManager] *)

Module Store.

(** One row of [events].  [id] is the [INTEGER PRIMARY KEY AUTOINCREMENT]
    column; [created_at] is filled by its [DEFAULT CURRENT_TIMESTAMP]. *)
Record StoredEvent := {
  id : Z;
  event_type : string;
  event_payload : string;
  received_at : string;
  created_at : string
}.

(** The table [events]: its rows in insertion order, and [seq], the entry
    SQLite keeps for it in [sqlite_sequence] (the largest id handed out so
    far, [0] before the first insert). *)
Record table := {
  rows : list StoredEvent;
  seq : Z
}.

Definition empty_table : table := {| rows := []; seq := 0 |}.

(** The largest 64-bit signed rowid. *)
Definition MAX_ROWID : Z := 9223372036854775807.

Definition max_rowid (rs : list StoredEvent) : Z :=
  foldr (fun r m => Z.max (id r) m) 0 rs.

(** The id an [AUTOINCREMENT] column gives to the next row: one more than
    the largest id that ever existed in the table. *)
Definition next_rowid (t : table) : Z :=
  Z.max (seq t) (max_rowid (rows t)) + 1.

(** What a path holds, as far as SQLite is concerned. *)
Inductive db_node :=
| Directory                          (* cannot be opened as a file *)
| NotADatabase                       (* a file that is not an SQLite database *)
| Database (events : option table).  (* a database, with or without [events] *)

(** The two clock readings taken while a row is written:
    [datetime.now().isoformat()] and SQLite's [CURRENT_TIMESTAMP]. *)
Record instant := {
  datetime_now : string;
  CURRENT_TIMESTAMP : string
}.

(** The outside world of the consumer: YAML sources (a readable file is
    mapped to what [yaml.safe_load] returns on it) and database files. *)
Record world := {
  yaml_files : gmap string (exn + value);
  dbs : gmap string db_node
}.

Definition set_db (path : string) (n : db_node) (w : world) : world :=
  {| yaml_files := yaml_files w; dbs := <[path := n]> (dbs w) |}.

Definition table_at (w : world) (path : string) : option table :=
  match dbs w !! path with
  | Some (Database (Some t)) => Some t
  | _ => None
  end.

(** The names SQLite does not take as a file: [":memory:"] and the empty
    name each open a new database that is private to the connection,
    empty when opened and gone when the connection is closed. *)
Definition is_private (path : string) : bool :=
  (path =? ":memory:")%string || (path =? "")%string.

(** A connection: to the database file at a path, or to a private
    database.  Every connection of the program runs one statement, so a
    private database is in its initial, empty state when the statement
    runs. *)
Inductive connection :=
| File (path : string)
| Private.

(** [sqlite3.connect(database)].  A missing file is created as an empty
    database. *)
Definition connect (database : value) : M world connection :=
  match database with
  | VStr path =>
      if is_private path then ret Private
      else fun w =>
        match dbs w !! path with
        | None => Return (File path) (set_db path (Database None) w)
        | Some Directory => Raise (OperationalError "unable to open database file") w
        | Some _ => Return (File path) w
        end
  | _ => raise (TypeError (type_name database))
  end.

(** [cursor.execute('CREATE TABLE IF NOT EXISTS events (...)')]; in a
    private database the table lives and dies with the connection. *)
Definition execute_create_table (conn : connection) : M world unit :=
  match conn with
  | Private => ret tt
  | File path => fun w =>
      match dbs w !! path with
      | Some (Database None) => Return tt (set_db path (Database (Some empty_table)) w)
      | Some (Database (Some _)) => Return tt w
      | Some NotADatabase => Raise (DatabaseError "file is not a database") w
      | _ => Raise (OperationalError "unable to open database file") w
      end
  end.

(** The row written by
    [INSERT INTO events (event_type, event_payload, received_at) VALUES (?, ?, ?)]. *)
Definition new_row (t : table) (ty payload received : string) (now : instant)
  : StoredEvent :=
  {| id := next_rowid t; event_type := ty; event_payload := payload;
     received_at := received; created_at := CURRENT_TIMESTAMP now |}.

Definition insert_row (t : table) (r : StoredEvent) : table :=
  {| rows := rows t ++ [r]; seq := id r |}.

(** [cursor.execute('INSERT ...', (event_type, event_payload, current_time))]
    followed by [cursor.lastrowid]; the write is the one [conn.commit()]
    makes durable.  The statement is compiled against the schema first;
    then the three parameters are bound as UTF-8 text, which fails on a
    lone surrogate; then the row is written. *)
Definition execute_insert (conn : connection) (ty payload received : string)
    (now : instant) : M world Z :=
  match conn with
  | Private => raise (OperationalError "no such table: events")
  | File path => fun w =>
      match dbs w !! path with
      | Some (Database (Some t)) =>
          if negb (forallb encodable [ty; payload; received])
          then Raise (UnicodeEncodeError "surrogates not allowed") w
          else if MAX_ROWID <? next_rowid t
          then Raise (OperationalError "database or disk is full") w
          else let r := new_row t ty payload received now in
               Return (id r) (set_db path (Database (Some (insert_row t r))) w)
      | Some (Database None) => Raise (OperationalError "no such table: events") w
      | Some NotADatabase => Raise (DatabaseError "file is not a database") w
      | _ => Raise (OperationalError "unable to open database file") w
      end
  end.

End Store.

(** ** event_consumer.py *)

Module Consumer.
Import Store.

(** [class EventModel(BaseModel)]: two required [str] fields. *)
Record EventModel := {
  event_type : string;
  event_payload : string
}.

(** Validation of one [str] field, as pydantic 2 does it: the field must
    be present and be a string (numbers, booleans, [None], lists and
    dicts are not coerced). *)
Definition validate_str (field : string) (data : gmap string value)
  : list ErrorDetails + string :=
  match data !! field with
  | None => inl [ {| loc := field; type := missing; input := VDict data |} ]
  | Some (VStr s) => inr s
  | Some v => inl [ {| loc := field; type := string_type; input := v |} ]
  end.

Definition errors_of {A} (r : list ErrorDetails + A) : list ErrorDetails :=
  match r with inl es => es | inr _ => [] end.

(** The constructor call on the double-starred [event_data]: unpacking
    needs a mapping; every field is then validated, all violations are
    reported together, and keys that are not fields are ignored. *)
Definition EventModel_init (event_data : value) : exn + EventModel :=
  match event_data with
  | VDict data =>
      match validate_str "event_type" data, validate_str "event_payload" data with
      | inr ty, inr payload =>
          inr {| event_type := ty; event_payload := payload |}
      | r1, r2 => inl (ValidationError (errors_of r1 ++ errors_of r2))
      end
  | _ => inl (TypeError (type_name event_data))
  end.

(** [class DatabaseManager].  [self.config] is stored by the constructor
    and never read again; [db_path] is whatever the configuration holds. *)
Record DatabaseManager := {
  db_path : value
}.

Definition init_database (self : DatabaseManager) : M world unit :=
  conn <- connect (db_path self);;
  execute_create_table conn.

(** [DatabaseManager.__init__] *)
Definition DatabaseManager_init (config : value) : M world DatabaseManager :=
  path <- lift (dict_get config "path" (VStr "events.db"));;
  let self := {| db_path := path |} in
  init_database self;;;
  ret self.

Definition save_event (self : DatabaseManager) (event_type event_payload : string)
    (now : instant) : M world Z :=
  conn <- connect (db_path self);;
  let current_time := datetime_now now in
  event_id <- execute_insert conn event_type event_payload current_time now;;
  ret event_id.

(** [class EventConsumer]; [self.app] is the pair of routes below. *)
Record EventConsumer := {
  config : value;
  db_manager : DatabaseManager
}.

Definition default_config : value :=
  VDict {[ "port" := VInt 8001;
           "database" := VDict {[ "type" := VStr "sqlite";
                                  "path" := VStr "events.db" ]} ]}.

(** [open(config_file, 'r', encoding='utf-8')] *)
Definition open (path : string) : M world (exn + value) :=
  fun w => match yaml_files w !! path with
           | Some f => Return f w
           | None => Raise (FileNotFoundError path) w
           end.

Definition load_config (config_file : string) : M world value :=
  try_except
    (file <- open config_file;;
     config <- lift file;;
     lift (getitem config "event_consumer"))
    (fun e => match e with
              | FileNotFoundError _ => Some (ret default_config)
              | _ => None
              end).

(** [EventConsumer.__init__] *)
Definition EventConsumer_init (config_file : string) : M world EventConsumer :=
  config <- load_config config_file;;
  database <- lift (getitem config "database");;
  db_manager <- DatabaseManager_init database;;
  ret {| config := config; db_manager := db_manager |}.

(** Why the body of a request cannot be decoded: its text is not JSON
    ([json.JSONDecodeError]), or its bytes cannot be read as text in the
    encoding the decoder settles on, as the single byte [0xFF] cannot
    ([UnicodeDecodeError]). *)
Inductive decode_error :=
| NotJSON (msg : string)
| NotUTF8 (msg : string).

Definition decode_exn (e : decode_error) : exn :=
  match e with
  | NotJSON msg => JSONDecodeError msg
  | NotUTF8 msg => UnicodeDecodeError msg
  end.

(** The request as the handler sees it: what decoding its body gives. *)
Record Request := {
  json : decode_error + value
}.

(** [await request.json()] *)
Definition request_json (request : Request) : M world value :=
  match json request with
  | inl e => raise (decode_exn e)
  | inr v => ret v
  end.

Section Routes.

(** Python's [str(e)] on an exception. *)
Variable str : exn -> string.

(** The outer [try] block of [receive_event]. *)
Definition receive_event_try (self : EventConsumer) (request : Request)
    (now : instant) : M world value :=
  event_data <- request_json request;;
  event <- try_except (lift (EventModel_init event_data))
             (fun e => match e with
                       | ValidationError _ =>
                           let error_msg := "Invalid data format: " +:+ str e in
                           Some (raise (HTTPException 400 error_msg))
                       | _ => None
                       end);;
  event_id <- save_event (db_manager self)
                (event_type event) (event_payload event) now;;
  ret (VDict {[ "status" := VStr "success";
                "message" := VStr "Event saved successfully";
                "event_id" := VInt event_id ]}).

(** [POST /event]: the [try] block under its three [except] clauses. *)
Definition receive_event (self : EventConsumer) (request : Request)
    (now : instant) : M world value :=
  try_except
    (receive_event_try self request now)
    (fun e => match e with
              | JSONDecodeError _ =>
                  let error_msg := "Invalid JSON format" in
                  Some (raise (HTTPException 400 error_msg))
              | HTTPException _ _ => Some (raise e)
              | _ => Some (raise (HTTPException 500 "Internal server error"))
              end).


(** What the framework sends back for a route's outcome: a returned dict
    is the body of a 200 response, an [HTTPException] becomes its status
    with the body [{"detail": detail}], and any other exception a bare
    500. *)
Record Response := {
  status_code : Z;
  content : value
}.

Definition respond (r : res world value) : Response * world :=
  match r with
  | Return body w => ({| status_code := 200; content := body |}, w)
  | Raise (HTTPException status detail) w =>
      ({| status_code := status;
          content := VDict {[ "detail" := VStr detail ]} |}, w)
  | Raise _ w =>
      ({| status_code := 500; content := VStr "Internal Server Error" |}, w)
  end.

Definition post_event (self : EventConsumer) (request : Request)
    (now : instant) (w : world) : Response * world :=
  respond (receive_event self request now w).


(** The requests of one run of the server, handled one after the other. *)
Fixpoint serve (self : EventConsumer) (requests : list (Request * instant))
    (w : world) : list Response * world :=
  match requests with
  | [] => ([], w)
  | (request, now) :: rest =>
      let '(response, w') := post_event self request now w in
      let '(responses, w'') := serve self rest w' in
      (response :: responses, w'')
  end.

(** The [event_id] of a success response. *)
Definition event_id_of (r : Response) : option Z :=
  if status_code r =? 200 then
    match content r with
    | VDict d => match d !! "event_id" with
                 | Some (VInt n) => Some n
                 | _ => None
                 end
    | _ => None
    end
  else None.

Definition event_ids (rs : list Response) : list Z :=
  omap event_id_of rs.

End Routes.

(** The parsed command line. *)
Module Args.
Record t := {
  config : string;
  port : option Z;
  db_path : option string
}.
End Args.

(** [main], up to the call of [uvicorn.run]: the result is the consumer
    that serves and the port it serves on. *)
Definition main (args : Args.t) : M world (EventConsumer * value) :=
  consumer <- EventConsumer_init (Args.config args);;
  consumer <- match Args.port args with
              | Some port =>
                  if truthy (VInt port) then
                    config' <- lift (setitem (config consumer) "port" (VInt port));;
                    ret {| config := config'; db_manager := db_manager consumer |}
                  else ret consumer
              | None => ret consumer
              end;;
  consumer <- match Args.db_path args with
              | Some db_path =>
                  if truthy (VStr db_path) then
                    database <- lift (getitem (config consumer) "database");;
                    database' <- lift (setitem database "path" (VStr db_path));;
                    config' <- lift (setitem (config consumer) "database" database');;
                    db_manager' <- DatabaseManager_init database';;
                    ret {| config := config'; db_manager := db_manager' |}
                  else ret consumer
              | None => ret consumer
              end;;
  port <- lift (getitem (config consumer) "port");;
  database <- lift (getitem (config consumer) "database");;
  lift (getitem database "path");;;
  ret (consumer, port).

(** *** Vocabulary for the statements about the consumer *)

(** Exceptions that neither of the first two [except] clauses of
    [receive_event] takes. *)
Definition unexpected (e : exn) : Prop :=
  match e with
  | JSONDecodeError _ | HTTPException _ _ => False
  | _ => True
  end.

Definition success_body (event_id : Z) : value :=
  VDict {[ "status" := VStr "success";
           "message" := VStr "Event saved successfully";
           "event_id" := VInt event_id ]}.

Definition error_response (status : Z) (detail : string) : Response :=
  {| status_code := status; content := VDict {[ "detail" := VStr detail ]} |}.

(** The world after one event was appended to the table [t] at [p]. *)
Definition saved (w : world) (p : string) (t : table) (ty payload : string)
    (now : instant) : world :=
  set_db p (Database (Some (insert_row t (new_row t ty payload (datetime_now now) now)))) w.

(** The two fields of [EventModel], and whether a decoded object holds a
    string under a field. *)
Definition fields : list string := ["event_type"; "event_payload"].

Definition is_str (d : gmap string value) (field : string) : bool :=
  match d !! field with Some (VStr _) => true | _ => false end.

(** What a request asks to store: its two fields and the time it was
    received, when its body is an object holding two strings. *)
Definition submitted (request : Request) (now : instant)
  : option (string * string * string) :=
  match json request with
  | inr (VDict d) =>
      match d !! "event_type", d !! "event_payload" with
      | Some (VStr ty), Some (VStr payload) => Some (ty, payload, datetime_now now)
      | _, _ => None
      end
  | _ => None
  end.

(** The submissions among [requests] that were answered with a success. *)
Definition accepted (requests : list (Request * instant)) (responses : list Response)
  : list (string * string * string) :=
  omap (fun x : (Request * instant) * Response =>
          if status_code x.2 =? 200 then submitted x.1.1 x.1.2 else None)
       (zip requests responses).

(** The columns of a row that come from the request. *)
Definition stored_fields (r : StoredEvent) : string * string * string :=
  (Store.event_type r, Store.event_payload r, received_at r).

End Consumer.

(** ** event_propagator.py *)

Module Propagator.

(** What the propagator does to the outside: one HTTP POST of an event to
    an endpoint, or one [asyncio.sleep]. *)
Inductive action :=
| Post (endpoint : string) (event : value)
| Sleep (seconds : value).

Definition is_post (a : action) : bool :=
  match a with Post _ _ => true | Sleep _ => false end.

(** The POSTs among a list of actions. *)
Definition sends (l : list action) : list action :=
  List.filter is_post l.

(** What [n] completed ticks leave behind when they chose the events
    [chosen]: for each, the POST if the event is truthy, then the sleep. *)
Definition tick_actions (url : string) (interval : value) (chosen : list value)
  : list action :=
  flat_map (fun e => if truthy e then [Post url e; Sleep interval]
                     else [Sleep interval]) chosen.

(** The least integer that does not convert to a [float]: half an ulp
    above the largest double. *)
Definition FLOAT_LIMIT : Z := 2 ^ 1024 - 2 ^ 970.

(** The intervals after which the loop goes on: a boolean, an integer
    within the range of [float], or a float that is a number and not
    positive infinity. *)
Definition steady (interval : value) : bool :=
  match interval with
  | VInt n => n <? FLOAT_LIMIT
  | VBool _ => true
  | VFloat f =>
      match f with
      | SpecFloat.S754_nan | SpecFloat.S754_infinity false => false
      | _ => true
      end
  | _ => false
  end.

(** The number of decimal digits from which Python refuses to write an
    [int] as text. *)
Definition INT_MAX_STR_DIGITS : Z := 4300.

(** Whether [json.dumps(v, allow_nan=False)] succeeds: no [NaN] and no
    infinity anywhere in [v], and no integer too long to be written. *)
Fixpoint dumpable (v : value) : bool :=
  match v with
  | VFloat f =>
      match f with
      | SpecFloat.S754_nan | SpecFloat.S754_infinity _ => false
      | _ => true
      end
  | VInt n => Z.abs n <? 10 ^ INT_MAX_STR_DIGITS
  | VList l => forallb dumpable l
  | VDict d => map_fold (fun _ x acc => dumpable x && acc) true d
  | _ => true
  end.

(** Whether the dumped text encodes as UTF-8: no lone surrogate in a
    string or in a key of [v]. *)
Fixpoint encodable_text (v : value) : bool :=
  match v with
  | VStr s => encodable s
  | VList l => forallb encodable_text l
  | VDict d => map_fold (fun k x acc => encodable k && encodable_text x && acc) true d
  | _ => true
  end.

(** Whether the client builds the JSON body of a request from [v]. *)
Definition json_encodable (v : value) : bool :=
  dumpable v && encodable_text v.

(** The HTTP client's verdict on a URL: whether it sends a request
    there, or raises before anything is sent (no [http://] or
    [https://] in front, or not a URL at all). *)
Class HttpClient := accepts_url : string -> bool.

(** The parsed command line. *)
Module Args.
Record t := {
  config : string;
  interval : option Z;
  endpoint : option string;
  events_file : option string
}.
End Args.

Section Random.

(** The state of the [random] module and its [_randbelow(n)], which draws
    an index below [n]. *)
Variable rng : Type.
Variable randbelow : rng -> nat -> nat * rng.
Context {client : HttpClient}.

(** The outside world of the propagator: YAML and JSON sources (a readable
    file is mapped to what the decoder returns on it), the random
    generator, and the actions performed so far, oldest first. *)
Record world := {
  yaml_files : gmap string (exn + value);
  json_files : gmap string (exn + value);
  random : rng;
  actions : list action
}.

Definition perform (a : action) : M world unit :=
  fun w => Return tt {| yaml_files := yaml_files w; json_files := json_files w;
                        random := random w; actions := actions w ++ [a] |}.

Definition draw (n : nat) : M world nat :=
  fun w => let '(k, g) := randbelow (random w) n in
           Return k {| yaml_files := yaml_files w; json_files := json_files w;
                       random := g; actions := actions w |}.

(** [class EventPropagator] *)
Record EventPropagator := {
  config : value;
  events : value
}.

Definition default_config : value :=
  VDict {[ "interval_seconds" := VInt 5;
           "api_endpoint" := VStr "http://localhost:8001/event";
           "events_file" := VStr "events.json" ]}.

(** [open(file, 'r', encoding='utf-8')] on one of the two kinds of source;
    only string paths are followed. *)
Definition open (files : world -> gmap string (exn + value)) (file : value)
  : M world (exn + value) :=
  match file with
  | VStr path => fun w =>
      match files w !! path with
      | Some f => Return f w
      | None => Raise (FileNotFoundError path) w
      end
  | _ => raise (TypeError (type_name file))
  end.

Definition load_config (config_file : string) : M world value :=
  try_except
    (file <- open yaml_files (VStr config_file);;
     config <- lift file;;
     lift (getitem config "event_propagator"))
    (fun e => match e with
              | FileNotFoundError _ => Some (ret default_config)
              | _ => None
              end).

(** [load_events]; the message printed on success evaluates
    [len(events)]. *)
Definition load_events (config : value) : M world value :=
  events_file <- lift (getitem config "events_file");;
  try_except
    (file <- open json_files events_file;;
     events <- lift file;;
     lift (py_len events);;;
     ret events)
    (fun e => match e with
              | FileNotFoundError _ => Some (ret (VList []))
              | JSONDecodeError _ => Some (ret (VList []))
              | _ => None
              end).

(** [EventPropagator.__init__] *)
Definition EventPropagator_init (config_file : string) : M world EventPropagator :=
  config <- load_config config_file;;
  events <- load_events config;;
  ret {| config := config; events := events |}.

(** [seq[k]] for the index [k] drawn by [random.choice]. *)
Definition index (seq : value) (k : nat) : exn + value :=
  match seq with
  | VList l => match l !! k with
               | Some x => inr x
               | None => inl IndexError
               end
  | VStr s => match code_points s !! k with
              | Some c => inr (VStr c)
              | None => inl IndexError
              end
  | VDict _ => inl (KeyError (VInt (Z.of_nat k)))
  | _ => inl (TypeError (type_name seq))
  end.

(** [random.choice(seq)] *)
Definition choice (seq : value) : M world value :=
  n <- lift (py_len seq);;
  if (n =? 0)%nat then raise IndexError
  else k <- draw n;;
       lift (index seq k).

(** [get_random_event]; Python's [None] is [VNone]. *)
Definition get_random_event (self : EventPropagator) : M world value :=
  if negb (truthy (events self)) then ret VNone
  else choice (events self).

(** [client.post(endpoint, json=event, ...)]: the client builds the body,
    which fails on a value that cannot be dumped and on text that does
    not encode, and refuses a URL it cannot send to; otherwise one
    request goes out, and what comes back is only printed. *)
Definition post (endpoint : value) (event : value) : M world unit :=
  match endpoint with
  | VStr url =>
      if negb (dumpable event)
      then raise (ValueError "value cannot be written as JSON")
      else if negb (encodable_text event)
      then raise (UnicodeEncodeError "surrogates not allowed")
      else if accepts_url url then perform (Post url event)
      else raise (UnsupportedProtocol url)
  | _ => raise (TypeError (type_name endpoint))
  end.

(** [send_event]: every exception is swallowed. *)
Definition send_event (self : EventPropagator) (event : value) : M world unit :=
  try_except
    (endpoint <- lift (getitem (config self) "api_endpoint");;
     post endpoint event)
    (fun _ => Some (ret tt)).

(** [asyncio.sleep(delay)]: the delay must be a number, an integer must
    convert to a [float] when it is added to the clock, and [NaN] is no
    time to wake at.  The result tells whether the sleep ends: one of
    positive infinity never does. *)
Definition sleep (delay : value) : M world bool :=
  match delay with
  | VInt n =>
      if FLOAT_LIMIT <=? n
      then raise (OverflowError "int too large to convert to float")
      else perform (Sleep delay);;; ret true
  | VFloat f =>
      match f with
      | SpecFloat.S754_nan => raise (ValueError "Invalid delay: NaN (not a number)")
      | SpecFloat.S754_infinity false => perform (Sleep delay);;; ret false
      | _ => perform (Sleep delay);;; ret true
      end
  | VBool _ => perform (Sleep delay);;; ret true
  | _ => raise (TypeError (type_name delay))
  end.

(** How a bounded observation of [start] ends: the coroutine returned, or
    its loop is still going. *)
Inductive status := Returned | Running.

(** The first [ticks] iterations of [while True]; an iteration whose
    sleep does not end is the last one begun. *)
Fixpoint loop (ticks : nat) (self : EventPropagator) : M world status :=
  match ticks with
  | O => ret Running
  | S ticks' =>
      event <- get_random_event self;;
      (if truthy event then send_event self event else ret tt);;;
      interval <- lift (getitem (config self) "interval_seconds");;
      awake <- sleep interval;;
      if awake : bool then loop ticks' self else ret Running
  end.

(** [start], observed for [ticks] iterations of its loop.  The three
    lookups before the loop are the arguments of its [print] calls.  No
    interrupt arrives during the observation, so the clause for
    [KeyboardInterrupt] is never entered. *)
Definition start (ticks : nat) (self : EventPropagator) : M world status :=
  if negb (truthy (events self)) then ret Returned
  else
    lift (getitem (config self) "api_endpoint");;;
    lift (getitem (config self) "interval_seconds");;;
    lift (py_len (events self));;;
    loop ticks self.

(** [main], with [start] observed for [ticks] iterations. *)
Definition main (args : Args.t) (ticks : nat) : M world status :=
  propagator <- EventPropagator_init (Args.config args);;
  propagator <- match Args.interval args with
                | Some interval =>
                    if truthy (VInt interval) then
                      config' <- lift (setitem (config propagator)
                                         "interval_seconds" (VInt interval));;
                      ret {| config := config'; events := events propagator |}
                    else ret propagator
                | None => ret propagator
                end;;
  propagator <- match Args.endpoint args with
                | Some endpoint =>
                    if truthy (VStr endpoint) then
                      config' <- lift (setitem (config propagator)
                                         "api_endpoint" (VStr endpoint));;
                      ret {| config := config'; events := events propagator |}
                    else ret propagator
                | None => ret propagator
                end;;
  propagator <- match Args.events_file args with
                | Some events_file =>
                    if truthy (VStr events_file) then
                      config' <- lift (setitem (config propagator)
                                         "events_file" (VStr events_file));;
                      events <- load_events config';;
                      ret {| config := config'; events := events |}
                    else ret propagator
                | None => ret propagator
                end;;
  start ticks propagator.

(** The world after the actions [acts] were performed and the generator
    moved on to [g]. *)
Definition extend (w : world) (acts : list action) (g : rng) : world :=
  {| yaml_files := yaml_files w; json_files := json_files w;
     random := g; actions := actions w ++ acts |}.

End Random.

Arguments yaml_files {rng} _.
Arguments json_files {rng} _.
Arguments random {rng} _.
Arguments actions {rng} _.
Arguments perform {rng} a _.
Arguments draw {rng} randbelow n _.
Arguments open {rng} files file.
Arguments load_config {rng} config_file.
Arguments load_events {rng} config.
Arguments EventPropagator_init {rng} config_file.
Arguments choice {rng} randbelow seq.
Arguments get_random_event {rng} randbelow self.
Arguments post {rng client} endpoint event.
Arguments send_event {rng client} self event.
Arguments sleep {rng} delay.
Arguments loop {rng} randbelow {client} ticks self.
Arguments start {rng} randbelow {client} ticks self.
Arguments main {rng} randbelow {client} args ticks.
Arguments extend {rng} w acts g.

End Propagator.

(** ** Concrete inputs *)

Module Examples.
Import Store.

(** A stand-in for Python's [str] on exceptions. *)
Definition str_demo (e : exn) : string :=
  match e with
  | ValidationError errors => String.concat ", " (map loc errors)
  | JSONDecodeError msg | UnicodeDecodeError msg | YAMLError msg
  | OperationalError msg | DatabaseError msg => msg
  | _ => ""
  end.

Definition noon : instant :=
  {| datetime_now := "2025-06-01T12:00:00.000000";
     CURRENT_TIMESTAMP := "2025-06-01 10:00:00" |}.

(** No configuration file, no database yet. *)
Definition bare : world := {| yaml_files := ∅; dbs := ∅ |}.

(** [events.db] initialised and still empty. *)
Definition fresh : world :=
  {| yaml_files := ∅; dbs := {[ "events.db" := Database (Some empty_table) ]} |}.

(** The consumer built from the default configuration. *)
Definition consumer0 : Consumer.EventConsumer :=
  {| Consumer.config := Consumer.default_config;
     Consumer.db_manager := {| Consumer.db_path := VStr "events.db" |} |}.

Definition body (event_type event_payload : value) : value :=
  VDict {[ "event_type" := event_type; "event_payload" := event_payload ]}.

Definition login : Consumer.Request :=
  {| Consumer.json := inr (body (VStr "login") (VStr "user123")) |}.

Definition no_payload : Consumer.Request :=
  {| Consumer.json := inr (VDict {[ "event_type" := VStr "login" ]}) |}.

Definition empty_strings : Consumer.Request :=
  {| Consumer.json := inr (body (VStr "") (VStr "")) |}.

Definition extra_key : Consumer.Request :=
  {| Consumer.json :=
       inr (VDict {[ "event_type" := VStr "login";
                     "event_payload" := VStr "user123";
                     "source" := VInt 7 ]}) |}.

Definition array_body : Consumer.Request :=
  {| Consumer.json := inr (VList [VStr "login"; VStr "user123"]) |}.

(** The character U+D800, a lone surrogate, as Python holds it. *)
Definition surrogate : string :=
  String (Ascii.ascii_of_nat 237)
    (String (Ascii.ascii_of_nat 160) (String (Ascii.ascii_of_nat 128) EmptyString)).

(** The two bytes of U+00E9, one character. *)
Definition e_acute : string :=
  String (Ascii.ascii_of_nat 195) (String (Ascii.ascii_of_nat 169) EmptyString).



Definition not_json : Consumer.Request :=
  {| Consumer.json := inl (Consumer.NotJSON "Expecting value: line 1 column 1 (char 0)") |}.

(** A body made of the single byte [0xff]. *)
Definition not_utf8 : Consumer.Request :=
  {| Consumer.json :=
       inl (Consumer.NotUTF8 "'utf-8' codec can't decode byte 0xff in position 0: invalid start byte") |}.

(** Three requests in a row: the second one is refused. *)
Definition three_requests : list (Consumer.Request * instant) :=
  [(login, noon); (no_payload, noon); (extra_key, noon)].

Definition override (db_path : string) : Consumer.Args.t :=
  {| Consumer.Args.config := "config.yaml";
     Consumer.Args.port := None;
     Consumer.Args.db_path := Some db_path |}.

(** A stand-in for the HTTP client's verdict on a URL: it starts with a
    scheme the client speaks. *)
#[export] Instance scheme_check : Propagator.HttpClient :=
  fun url => String.prefix "http://" url || String.prefix "https://" url.

(** A generator whose state is a counter: the draw below [n] is the
    counter modulo [n]. *)
Definition counter_randbelow (g n : nat) : nat * nat := (g mod n, S g)%nat.

Definition login_event : value := body (VStr "login") (VStr "user123").
Definition logout_event : value := body (VStr "logout") (VStr "user123").

Definition catalog : value := VList [login_event; logout_event].

(** An events file that is not JSON. *)
Definition broken_source : gmap string (exn + value) :=
  {[ "events.json" := inl (JSONDecodeError "Expecting value: line 1 column 1 (char 0)") ]}.

Definition propagator0 (events : value) : Propagator.EventPropagator :=
  {| Propagator.config := Propagator.default_config;
     Propagator.events := events |}.

(** A propagator world with the given JSON sources and counter. *)
Definition sources (json_files : gmap string (exn + value)) (g : nat)
  : Propagator.world nat :=
  {| Propagator.yaml_files := ∅; Propagator.json_files := json_files;
     Propagator.random := g; Propagator.actions := [] |}.

(** A configuration file without the consumer's section. *)
Definition other_section : world :=
  {| yaml_files := {[ "config.yaml" :=
                        inr (VDict {[ "event_propagator" := VDict ∅ ]}) ]};
     dbs := ∅ |}.

(** A configuration whose [database] section has no [path]. *)
Definition pathless_section : value :=
  VDict {[ "port" := VInt 9000;
           "database" := VDict {[ "type" := VStr "sqlite" ]} ]}.

Definition pathless : world :=
  {| yaml_files := {[ "config.yaml" :=
                        inr (VDict {[ "event_consumer" := pathless_section ]}) ]};
     dbs := ∅ |}.

(** [events.db] is a directory. *)
Definition blocked : world :=
  {| yaml_files := ∅; dbs := {[ "events.db" := Directory ]} |}.

(** [events.db] already holds a row with id 41. *)
Definition used_table : table :=
  {| rows := [ {| id := 41; Store.event_type := "login";
                  Store.event_payload := "user7";
                  received_at := "2025-05-31T08:00:00.000000";
                  created_at := "2025-05-31 06:00:00" |} ];
     seq := 41 |}.

Definition used : world :=
  {| yaml_files := ∅; dbs := {[ "events.db" := Database (Some used_table) ]} |}.

Definition no_override (port : option Z) : Consumer.Args.t :=
  {| Consumer.Args.config := "config.yaml";
     Consumer.Args.port := port;
     Consumer.Args.db_path := None |}.

(** The catalog on disk under the default name. *)
Definition catalog_source : gmap string (exn + value) :=
  {[ "events.json" := inr catalog ]}.

(** A second catalog, and both on disk. *)
Definition signup_event : value := body (VStr "signup") (VStr "user9").

Definition two_sources : gmap string (exn + value) :=
  {[ "events.json" := inr catalog; "more.json" := inr (VList [signup_event]) ]}.

(** A catalog file holding a bare number. *)
Definition number_source : gmap string (exn + value) :=
  {[ "events.json" := inr (VInt 5) ]}.

(** An events file whose first byte is [0xFF]: reading it as text fails. *)
Definition binary_source : gmap string (exn + value) :=
  {[ "events.json" :=
       inl (UnicodeDecodeError "'utf-8' codec can't decode byte 0xff in position 0: invalid start byte") ]}.

(** A catalog of events that are all falsy: an empty object and [null]. *)
Definition falsy_catalog : list value := [VDict ∅; VNone].

(** A catalog that is an object, not an array. *)
Definition object_catalog : gmap string value := {[ "login" := login_event ]}.

Definition propagator_args (interval : option Z) (endpoint events_file : option string)
  : Propagator.Args.t :=
  {| Propagator.Args.config := "config.yaml";
     Propagator.Args.interval := interval;
     Propagator.Args.endpoint := endpoint;
     Propagator.Args.events_file := events_file |}.

End Examples.

(** * Properties *)

(** ** Inversion of monadic steps *)

Section Monad.
Context {W A B : Type}.

Lemma bind_Return (m : M W A) (k : A -> M W B) w b w' :
  bind m k w = Return b w' ->
  exists a w1, m w = Return a w1 ∧ k a w1 = Return b w'.
Proof. unfold bind. destruct (m w) as [a w1|e w1]; [eauto | done]. Qed.

Lemma lift_Return (r : exn + A) (w : W) a w' :
  lift r w = Return a w' -> r = inr a ∧ w' = w.
Proof. destruct r; simpl; unfold raise, ret; intros [=]; subst; done. Qed.

Lemma ret_Return (x a : A) (w w' : W) :
  ret x w = Return a w' -> x = a ∧ w' = w.
Proof. unfold ret. intros [=]; done. Qed.

End Monad.

Lemma getitem_setitem_ne v k x v' k' :
  setitem v k x = inr v' -> k ≠ k' -> getitem v' k' = getitem v k'.
Proof.
  destruct v; try discriminate. simpl. intros [= <-] Hne. simpl.
  by rewrite lookup_insert_ne.
Qed.

Lemma getitem_setitem_eq v k x v' :
  setitem v k x = inr v' -> getitem v' k = inr x.
Proof.
  destruct v; try discriminate. simpl. intros [= <-]. simpl.
  by rewrite lookup_insert_eq.
Qed.

Lemma StronglySorted_lt_app (l1 l2 : list Z) :
  StronglySorted Z.lt l1 -> StronglySorted Z.lt l2 ->
  Forall (fun y => Forall (fun x => x < y) l1) l2 ->
  StronglySorted Z.lt (l1 ++ l2).
Proof.
  intros H1 H2 H12. induction H1 as [|x l1 Hs IH Hx]; simpl; [done|].
  constructor.
  - apply IH. eapply Forall_impl; [exact H12|]. simpl. intros y Hy.
    by inversion Hy.
  - apply Forall_app. split; [done|].
    eapply Forall_impl; [exact H12|]. simpl. intros y Hy. by inversion Hy.
Qed.

(** ** The consumer *)

Module ConsumerProofs.
Import Store Consumer.

(** *** The store *)

Lemma dbs_set_db_eq p n w : dbs (set_db p n w) !! p = Some n.
Proof. unfold set_db; simpl. by rewrite lookup_insert_eq. Qed.

Lemma table_at_set_db_eq p n w :
  table_at (set_db p n w) p = match n with Database (Some t) => Some t | _ => None end.
Proof. unfold table_at, set_db; simpl. by rewrite lookup_insert_eq. Qed.

Lemma table_at_set_db_ne p q n w :
  p ≠ q -> table_at (set_db p n w) q = table_at w q.
Proof. intros H. unfold table_at, set_db; simpl. by rewrite lookup_insert_ne. Qed.

Lemma table_at_Some w p t :
  table_at w p = Some t -> dbs w !! p = Some (Database (Some t)).
Proof.
  unfold table_at. destruct (dbs w !! p) as [[| |[t'|]]|]; congruence.
Qed.

Lemma max_rowid_ge rs r : r ∈ rs -> id r <= max_rowid rs.
Proof. induction 1 as [r rs | r r' rs _ IH]; simpl; lia. Qed.

Lemma next_rowid_above t n :
  next_rowid t <= n -> seq t < n ∧ Forall (fun r => id r < n) (rows t).
Proof.
  unfold next_rowid. intros H. split; [lia|].
  apply Forall_forall. intros r Hr. apply max_rowid_ge in Hr. lia.
Qed.


(** A save either appends one row under the next id, or raises an
    exception of the unexpected kind and leaves every table, and every
    path but its own, as it was. *)
Lemma save_event_cases self ty payload now w :
  match save_event self ty payload now w with
  | Return n w' =>
      exists p t, db_path self = VStr p ∧ table_at w p = Some t ∧
                  n = next_rowid t ∧ n <= MAX_ROWID ∧
                  w' = saved w p t ty payload now
  | Raise e w' =>
      unexpected e ∧ (forall q, table_at w' q = table_at w q) ∧
      (forall p q, db_path self = VStr p -> q ≠ p -> dbs w' !! q = dbs w !! q)
  end.
Proof.
  unfold save_event, bind, connect.
  destruct (db_path self) as [| | | |p| |]; simpl; try done.
  destruct (is_private p); [done|].
  destruct (dbs w !! p) as [[| |[t|]]|] eqn:E; simpl; try done.
  - unfold execute_insert. rewrite E. done.
  - unfold execute_insert. rewrite E.
    match goal with |- context [if negb ?b then _ else _] => destruct b end;
      cbn [negb]; [|done].
    destruct (MAX_ROWID <? next_rowid t) eqn:L; [done|].
    apply Z.ltb_ge in L. exists p, t. unfold table_at. rewrite E. done.
  - unfold execute_insert. rewrite E. done.
  - unfold execute_insert, set_db at 1. simpl. rewrite lookup_insert_eq.
    split; [done|]. split.
    + intros q. unfold table_at; simpl.
      destruct (decide (p = q)) as [<-|];
        [by rewrite lookup_insert_eq, E | by rewrite lookup_insert_ne].
    + intros p' q [= <-] Hq. simpl. by rewrite lookup_insert_ne.
Qed.

(** *** Validation *)

Lemma validate_str_inr field d s :
  validate_str field d = inr s <-> d !! field = Some (VStr s).
Proof.
  unfold validate_str. destruct (d !! field) as [[]|]; split; congruence.
Qed.

Lemma validate_str_inl field d es :
  validate_str field d = inl es ->
  is_str d field = false ∧ exists e, es = [e] ∧ loc e = field ∧
    type e = match d !! loc e with Some _ => string_type | None => missing end.
Proof.
  unfold validate_str, is_str.
  destruct (d !! field) as [[]|] eqn:E; intros [= <-];
    (split; [done|]); eexists; (split; [done|]); simpl; rewrite E; done.
Qed.

Lemma is_str_true d field :
  is_str d field = true -> exists s, d !! field = Some (VStr s).
Proof.
  unfold is_str. destruct (d !! field) as [[]|]; try done. eauto.
Qed.

Section Routes.
Variable str : exn -> string.

Ltac run_handler :=
  unfold post_event, receive_event, try_except, receive_event_try, bind,
    request_json.

Lemma receive_event_try_valid self request now w d ty payload :
  json request = inr (VDict d) ->
  d !! "event_type" = Some (VStr ty) -> d !! "event_payload" = Some (VStr payload) ->
  receive_event_try str self request now w =
    match save_event (db_manager self) ty payload now w with
    | Return n w' => Return (success_body n) w'
    | Raise e w' => Raise e w'
    end.
Proof.
  intros Hj H1 H2. unfold receive_event_try, bind, try_except, request_json.
  rewrite Hj. simpl. unfold validate_str. rewrite H1, H2. simpl. reflexivity.
Qed.

Lemma receive_event_try_invalid self request now w d :
  json request = inr (VDict d) ->
  is_str d "event_type" && is_str d "event_payload" = false ->
  exists errs, errs <> [] ∧
    map loc errs = List.filter (fun f => negb (is_str d f)) fields ∧
    Forall (fun e => type e = match d !! loc e with
                              | Some _ => string_type
                              | None => missing
                              end) errs ∧
    receive_event_try str self request now w =
      Raise (HTTPException 400 ("Invalid data format: " +:+ str (ValidationError errs))) w.
Proof.
  intros Hj Hbad. unfold receive_event_try, bind, try_except, request_json.
  rewrite Hj. simpl.
  destruct (validate_str "event_type" d) as [e1|s1] eqn:V1;
    destruct (validate_str "event_payload" d) as [e2|s2] eqn:V2; simpl.
  - apply validate_str_inl in V1 as (B1 & x1 & -> & L1 & T1).
    apply validate_str_inl in V2 as (B2 & x2 & -> & L2 & T2).
    exists [x1; x2]. simpl. unfold fields; simpl. rewrite B1, B2. simpl.
    rewrite L1, L2. split; [done|]. split; [done|]. split; [|done].
    repeat (constructor; [assumption|]). constructor.
  - apply validate_str_inl in V1 as (B1 & x1 & -> & L1 & T1).
    apply validate_str_inr in V2.
    exists [x1]. simpl. unfold fields; simpl. rewrite B1.
    unfold is_str at 1. rewrite V2. simpl.
    rewrite L1. split; [done|]. split; [done|]. split; [|done].
    repeat (constructor; [assumption|]). constructor.
  - apply validate_str_inl in V2 as (B2 & x2 & -> & L2 & T2).
    apply validate_str_inr in V1.
    exists [x2]. simpl. unfold fields; simpl. rewrite B2.
    unfold is_str at 1. rewrite V1. simpl.
    rewrite L2. split; [done|]. split; [done|]. split; [|done].
    repeat (constructor; [assumption|]). constructor.
  - apply validate_str_inr in V1. apply validate_str_inr in V2.
    unfold is_str in Hbad. rewrite V1, V2 in Hbad. done.
Qed.

Lemma success_body_event_id n :
  event_id_of {| status_code := 200; content := success_body n |} = Some n.
Proof. reflexivity. Qed.

(** Every request ends in one of two ways: the body is an object with two
    string fields and its row is appended, or the response is not a
    success and no table has changed. *)
Lemma post_event_cases self request now w :
  (exists d ty payload p t,
      json request = inr (VDict d) ∧
      d !! "event_type" = Some (VStr ty) ∧ d !! "event_payload" = Some (VStr payload) ∧
      db_path (db_manager self) = VStr p ∧ table_at w p = Some t ∧
      next_rowid t <= MAX_ROWID ∧
      post_event str self request now w =
        ({| status_code := 200; content := success_body (next_rowid t) |},
         saved w p t ty payload now))
  ∨ (status_code (post_event str self request now w).1 <> 200 ∧
     event_id_of (post_event str self request now w).1 = None ∧
     (forall q, table_at (post_event str self request now w).2 q = table_at w q) ∧
     (forall p q, db_path (db_manager self) = VStr p -> q ≠ p ->
                  dbs (post_event str self request now w).2 !! q = dbs w !! q)).
Proof.
  destruct (json request) as [e|v] eqn:Hj.
  { right. run_handler. rewrite Hj. simpl. destruct e; simpl; done. }
  destruct v as [| | | | | |d];
    try (right; run_handler; rewrite Hj; simpl; done).
  destruct (is_str d "event_type" && is_str d "event_payload") eqn:Hv.
  - apply andb_prop in Hv as [H1 H2].
    apply is_str_true in H1 as [ty H1]. apply is_str_true in H2 as [pl H2].
    unfold post_event, receive_event, try_except.
    rewrite (receive_event_try_valid _ _ _ _ d ty pl) by done.
    pose proof (save_event_cases (db_manager self) ty pl now w) as Hs.
    destruct (save_event (db_manager self) ty pl now w) as [n w'|e w'].
    + left. destruct Hs as (p & t & Hp & Ht & -> & Hmax & ->).
      exists d, ty, pl, p, t. done.
    + right. destruct Hs as (Hu & Ht & Hf). destruct e; simpl in *; done.
  - right. destruct (receive_event_try_invalid self request now w d Hj Hv)
      as (errs & _ & _ & _ & Heq).
    unfold post_event, receive_event, try_except. rewrite Heq. simpl. done.
Qed.

Lemma serve_cons self request now rest w :
  serve str self ((request, now) :: rest) w =
    ((post_event str self request now w).1 ::
       (serve str self rest (post_event str self request now w).2).1,
     (serve str self rest (post_event str self request now w).2).2).
Proof.
  simpl. destruct (post_event str self request now w) as [r w1]. simpl.
  destruct (serve str self rest w1) as [rs w2]. reflexivity.
Qed.

(** The invariant behind the id sequence: whatever the table at the
    consumer's path holds when serving starts, the ids answered from then
    on are at least its next id, ascend, and are the ids of the rows
    appended. *)
Lemma serve_ids self requests :
  forall w,
    StronglySorted Z.lt (event_ids (serve str self requests w).1) ∧
    forall p t, db_path (db_manager self) = VStr p -> table_at w p = Some t ->
      Forall (fun n => next_rowid t <= n) (event_ids (serve str self requests w).1) ∧
      exists t' news, table_at (serve str self requests w).2 p = Some t' ∧
                      rows t' = rows t ++ news ∧
                      map id news = event_ids (serve str self requests w).1.
Proof.
  induction requests as [|[request now] rest IH]; intros w.
  { simpl. split; [constructor|]. intros p t _ Ht. split; [constructor|].
    exists t, []. by rewrite app_nil_r. }
  rewrite serve_cons. cbn [fst snd].
  destruct (post_event_cases self request now w)
    as [(d & ty & pl & p & t & _ & _ & _ & Hp & Ht & Hmax & Heq) | (_ & Hid & Hsame & _)].
  - rewrite Heq. cbn [fst snd]. unfold event_ids. cbn [omap list_omap].
    rewrite success_body_event_id.
    fold (event_ids (serve str self rest (saved w p t ty pl now)).1).
    destruct (IH (saved w p t ty pl now)) as [Hsorted Htab].
    destruct (Htab p (insert_row t (new_row t ty pl (datetime_now now) now)) Hp)
      as [Hge (t' & news & Ht' & Hrows & Hids)].
    { unfold saved. by rewrite table_at_set_db_eq. }
    assert (Hnext : next_rowid t
                    < next_rowid (insert_row t (new_row t ty pl (datetime_now now) now))).
    { unfold next_rowid at 2. simpl. lia. }
    split.
    + constructor; [done|]. eapply Forall_impl; [exact Hge|]. simpl. intros; lia.
    + intros p' t0 Hp' Ht0. assert (p' = p) as -> by congruence.
      assert (t0 = t) as -> by congruence.
      split.
      * constructor; [lia|]. eapply Forall_impl; [exact Hge|]. simpl. intros; lia.
      * exists t', (new_row t ty pl (datetime_now now) now :: news).
        split; [done|]. split.
        -- rewrite Hrows. simpl. by rewrite <- app_assoc.
        -- simpl. by rewrite Hids.
  - unfold event_ids. cbn [omap list_omap]. rewrite Hid.
    fold (event_ids (serve str self rest (post_event str self request now w).2).1).
    destruct (IH (post_event str self request now w).2) as [Hsorted Htab].
    split; [done|]. intros p t Hp Ht. apply Htab; [done|]. by rewrite Hsame.
Qed.

Lemma StronglySorted_lt_NoDup (l : list Z) :
  StronglySorted Z.lt l -> NoDup l.
Proof.
  induction 1 as [|x l _ IH Hx]; constructor; [|done].
  intros Hin. rewrite Forall_forall in Hx. specialize (Hx x Hin). lia.
Qed.

(** *** Claims about [POST /event] *)

(** C1: over any sequence of requests served by one consumer, the
    [event_id]s of the successful responses are strictly increasing in
    the order of the responses; they are the ids of the rows appended to
    the table, each is larger than every id the table held or handed out
    before, and a table whose ids were strictly increasing (so unique)
    stays so. *)
Theorem event_ids_strictly_increasing self requests w responses w' :
  serve str self requests w = (responses, w') ->
  StronglySorted Z.lt (event_ids responses) ∧
  forall p t, db_path (db_manager self) = VStr p -> table_at w p = Some t ->
    exists t' news,
      table_at w' p = Some t' ∧ rows t' = rows t ++ news ∧
      map id news = event_ids responses ∧
      Forall (fun n => seq t < n ∧ Forall (fun r => id r < n) (rows t))
             (event_ids responses) ∧
      (StronglySorted Z.lt (map id (rows t)) ->
       StronglySorted Z.lt (map id (rows t')) ∧ NoDup (map id (rows t'))).
Proof.
  intros Hserve. destruct (serve_ids self requests w) as [Hsorted Htab].
  rewrite Hserve in Hsorted, Htab. cbn [fst snd] in *.
  split; [done|]. intros p t Hp Ht.
  destruct (Htab p t Hp Ht) as [Hge (t' & news & Ht' & Hrows & Hids)].
  assert (Habove : Forall (fun n => seq t < n ∧ Forall (fun r => id r < n) (rows t))
                          (event_ids responses)).
  { eapply Forall_impl; [exact Hge|]. intros n Hn. by apply next_rowid_above. }
  exists t', news. repeat (split; [done|]).
  intros Hold.
  assert (Hall : StronglySorted Z.lt (map id (rows t'))).
  { rewrite Hrows, map_app, Hids. apply StronglySorted_lt_app; [done..|].
    eapply Forall_impl; [exact Habove|]. intros n [_ Hn].
    apply Forall_forall. intros x Hx. apply list_elem_of_In, in_map_iff in Hx as (r & <- & Hr).
    rewrite Forall_forall in Hn. apply Hn. by apply list_elem_of_In. }
  split; [done | by apply StronglySorted_lt_NoDup].
Qed.

(** C2 (amended): a request is answered with a success only if its body
    decodes to an object holding strings under [event_type] and
    [event_payload] (empty strings and further keys are allowed); an
    object in which one of the two is missing or is not a string is
    answered with status 400 and the detail ["Invalid data format: "]
    followed by the text of a validation error with one entry per
    offending field, and the world, so every table, is left as it was. *)
Theorem invalid_fields_rejected_with_400 self request now w response w' :
  post_event str self request now w = (response, w') ->
  (status_code response = 200 ->
   exists d ty payload,
     json request = inr (VDict d) ∧
     d !! "event_type" = Some (VStr ty) ∧ d !! "event_payload" = Some (VStr payload)) ∧
  (forall d,
     json request = inr (VDict d) ->
     is_str d "event_type" && is_str d "event_payload" = false ->
     exists errs,
       errs <> [] ∧
       map loc errs = List.filter (fun f => negb (is_str d f)) fields ∧
       Forall (fun e => type e = match d !! loc e with
                                 | Some _ => string_type
                                 | None => missing
                                 end) errs ∧
       response = error_response 400
                    ("Invalid data format: " +:+ str (ValidationError errs)) ∧
       w' = w).
Proof.
  intros Hpost. split.
  - intros H200.
    destruct (post_event_cases self request now w)
      as [(d & ty & pl & p & t & Hj & H1 & H2 & _) | (Hne & _)].
    + by exists d, ty, pl.
    + rewrite Hpost in Hne. done.
  - intros d Hj Hbad.
    destruct (receive_event_try_invalid self request now w d Hj Hbad)
      as (errs & Hnil & Hloc & Hty & Heq).
    exists errs. repeat (split; [done|]).
    unfold post_event, receive_event, try_except in Hpost.
    rewrite Heq in Hpost. simpl in Hpost. by injection Hpost as <- <-.
Qed.


(** Text that is not JSON is answered with 400 and the fixed detail, and
    nothing is written. *)
Lemma not_json_is_400 self request now w msg :
  json request = inl (NotJSON msg) ->
  post_event str self request now w = (error_response 400 "Invalid JSON format", w).
Proof. intros Hj. run_handler. rewrite Hj. reflexivity. Qed.

(** C4 (failing input): a body whose decoding raises
    [UnicodeDecodeError], as the single byte [0xFF] does, cannot be parsed
    as JSON either, but the clause for [json.JSONDecodeError] does not
    take that exception: the answer is status 500 with detail
    ["Internal server error"], not status 400 with
    ["Invalid JSON format"].  Nothing is written. *)
Theorem undecodable_body_is_500 self now w msg :
  post_event str self {| json := inl (NotUTF8 msg) |} now w =
    (error_response 500 "Internal server error", w).
Proof. reflexivity. Qed.

(** C5: whenever the [try] block of the handler ends in an exception
    other than the two with a clause of their own, the answer is status
    500 with the fixed detail ["Internal server error"], whatever the
    exception and its text are; a save that raises, for a valid event, is
    such a case, and it leaves every table as it was. *)
Theorem internal_failure_is_generic_500 self request now w :
  (forall e w',
     receive_event_try str self request now w = Raise e w' ->
     unexpected e ->
     post_event str self request now w =
       (error_response 500 "Internal server error", w')) ∧
  (forall d ty payload e w',
     json request = inr (VDict d) ->
     d !! "event_type" = Some (VStr ty) ->
     d !! "event_payload" = Some (VStr payload) ->
     save_event (db_manager self) ty payload now w = Raise e w' ->
     post_event str self request now w =
       (error_response 500 "Internal server error", w') ∧
     forall q, table_at w' q = table_at w q).
Proof.
  assert (Hgen : forall e w',
     receive_event_try str self request now w = Raise e w' ->
     unexpected e ->
     post_event str self request now w =
       (error_response 500 "Internal server error", w')).
  { intros e w' Htry Hu. unfold post_event, receive_event, try_except.
    rewrite Htry. destruct e; simpl in Hu; try done. }
  split; [exact Hgen|].
  intros d ty pl e w' Hj H1 H2 Hsave.
  pose proof (save_event_cases (db_manager self) ty pl now w) as Hs.
  rewrite Hsave in Hs. destruct Hs as (Hu & Hsame & _).
  split; [|done]. apply (Hgen e); [|done].
  rewrite (receive_event_try_valid _ _ _ _ d ty pl) by done.
  by rewrite Hsave.
Qed.

End Routes.

(** *** Storage initialisation and the [--db-path] override *)

(** C9: when [init_database] has succeeded once, calling it again on the
    same location succeeds and leaves the world exactly as the first call
    left it; and no call changes a table that already exists, so its
    rows and the next id stay the same. *)
Theorem init_database_idempotent self w w1 :
  init_database self w = Return tt w1 ->
  init_database self w1 = Return tt w1 ∧
  (forall q t, table_at w q = Some t ->
               table_at w1 q = Some t ∧
               forall t1, table_at w1 q = Some t1 -> next_rowid t1 = next_rowid t).
Proof.
  unfold init_database, bind, connect.
  destruct (db_path self) as [| | | |p| |]; try done.
  assert (Hkeep : forall w1 : world,
            (forall q t, table_at w q = Some t -> table_at w1 q = Some t) ->
            forall q t, table_at w q = Some t ->
              table_at w1 q = Some t ∧
              forall t1, table_at w1 q = Some t1 -> next_rowid t1 = next_rowid t).
  { intros w2 H q t Ht. split; [by apply H|].
    intros t1 Ht1. rewrite (H q t Ht) in Ht1. by injection Ht1 as <-. }
  destruct (is_private p).
  { unfold execute_create_table, ret. intros [= <-]. split; [done|]. by apply Hkeep. }
  unfold execute_create_table.
  destruct (dbs w !! p) as [[| |[t|]]|] eqn:E; cbv beta iota;
    rewrite ?dbs_set_db_eq, ?E; try done; intros [= <-];
    rewrite ?dbs_set_db_eq, ?E; cbv beta iota; rewrite ?dbs_set_db_eq;
    (split; [done|]); apply Hkeep; try done.
  - intros q t Ht. destruct (decide (p = q)) as [<-|Hne].
    + apply table_at_Some in Ht. congruence.
    + by rewrite table_at_set_db_ne.
  - intros q t Ht. destruct (decide (p = q)) as [<-|Hne].
    + apply table_at_Some in Ht. congruence.
    + by rewrite !table_at_set_db_ne.
Qed.

Lemma load_config_world config_file w cfg w1 :
  load_config config_file w = Return cfg w1 -> w1 = w.
Proof.
  unfold load_config, try_except, bind, open.
  destruct (yaml_files w !! config_file) as [[e|v]|]; simpl.
  - destruct e; simpl; unfold ret; intros [=]; done.
  - destruct (getitem v "event_consumer") as [e|x]; simpl.
    + destruct e; simpl; unfold ret; intros [=]; done.
    + unfold ret; intros [=]; done.
  - unfold ret; intros [=]; done.
Qed.

Lemma DatabaseManager_init_Return database w dm w1 :
  DatabaseManager_init database w = Return dm w1 ->
  exists d, database = VDict d ∧
            dm = {| db_path := default (VStr "events.db") (d !! "path") |} ∧
            init_database dm w = Return tt w1.
Proof.
  unfold DatabaseManager_init. intros H.
  apply bind_Return in H as (path & w0 & H1 & H).
  apply lift_Return in H1 as [H1 ->].
  apply bind_Return in H as ([] & w2 & H2 & H).
  apply ret_Return in H as [<- ->].
  destruct database; try discriminate. simpl in H1. injection H1 as <-.
  eauto.
Qed.



(** *** The claims at concrete inputs *)

Import Examples.

Lemma event_ids_strictly_increasing_witness :
  event_ids (serve str_demo consumer0 three_requests fresh).1 = [1; 2] ∧
  StronglySorted Z.lt (event_ids (serve str_demo consumer0 three_requests fresh).1) ∧
  exists t' news,
    table_at (serve str_demo consumer0 three_requests fresh).2 "events.db" = Some t' ∧
    rows t' = rows empty_table ++ news ∧
    map id news = event_ids (serve str_demo consumer0 three_requests fresh).1.
Proof.
  split; [vm_compute; reflexivity|].
  destruct (event_ids_strictly_increasing str_demo consumer0 three_requests fresh
              _ _ (surjective_pairing _)) as [Hsorted Htab].
  split; [exact Hsorted|].
  destruct (Htab "events.db" empty_table eq_refl eq_refl)
    as (t' & news & Ht' & Hrows & Hids & _).
  exists t', news. auto.
Defined.

Lemma invalid_fields_rejected_with_400_witness :
  is_str {[ "event_type" := VStr "login" ]} "event_type"
    && is_str {[ "event_type" := VStr "login" ]} "event_payload" = false ∧
  exists errs,
    map loc errs = ["event_payload"] ∧
    post_event str_demo consumer0 no_payload noon fresh =
      (error_response 400 ("Invalid data format: " +:+ str_demo (ValidationError errs)),
       fresh).
Proof.
  split; [reflexivity|].
  destruct (proj2 (invalid_fields_rejected_with_400 str_demo consumer0 no_payload
                     noon fresh _ _ (surjective_pairing _))
              {[ "event_type" := VStr "login" ]} eq_refl eq_refl)
    as (errs & _ & Hloc & _ & Hresp & Hw).
  exists errs. split; [exact Hloc|].
  rewrite (surjective_pairing (post_event _ _ _ _ _)). by rewrite Hresp, Hw.
Defined.


Lemma internal_failure_is_generic_500_witness :
  save_event (db_manager consumer0) "login" "user123" noon bare =
    Raise (OperationalError "no such table: events")
          (set_db "events.db" (Database None) bare) ∧
  post_event str_demo consumer0 login noon bare =
    (error_response 500 "Internal server error",
     set_db "events.db" (Database None) bare).
Proof.
  assert (Hsave : save_event (db_manager consumer0) "login" "user123" noon bare =
                    Raise (OperationalError "no such table: events")
                          (set_db "events.db" (Database None) bare))
    by (vm_compute; reflexivity).
  split; [exact Hsave|].
  exact (proj1 (proj2 (internal_failure_is_generic_500 str_demo consumer0 login noon bare)
                  _ "login" "user123" _ _ eq_refl eq_refl eq_refl Hsave)).
Defined.

Lemma init_database_idempotent_witness :
  init_database {| db_path := VStr "events.db" |} bare = Return tt fresh ∧
  init_database {| db_path := VStr "events.db" |} fresh = Return tt fresh.
Proof.
  assert (H : init_database {| db_path := VStr "events.db" |} bare = Return tt fresh)
    by (vm_compute; reflexivity).
  split; [exact H|].
  exact (proj1 (init_database_idempotent _ _ _ H)).
Defined.


(** C2 as stated fails: empty strings are accepted and stored, a body
    with a further key is accepted, and a body that is an array is
    answered with 500 rather than 400. *)
Lemma strict_schema_counterexample :
  post_event str_demo consumer0 empty_strings noon fresh =
    ({| status_code := 200; content := success_body 1 |},
     {| yaml_files := ∅;
        dbs := {[ "events.db" :=
                    Database (Some
                      {| rows := [ {| id := 1;
                                      Store.event_type := "";
                                      Store.event_payload := "";
                                      received_at := "2025-06-01T12:00:00.000000";
                                      created_at := "2025-06-01 10:00:00" |} ];
                         seq := 1 |}) ]} |}) ∧
  (post_event str_demo consumer0 extra_key noon fresh).1 =
    {| status_code := 200; content := success_body 1 |} ∧
  post_event str_demo consumer0 array_body noon fresh =
    (error_response 500 "Internal server error", fresh).
Proof. vm_compute. auto. Qed.



End ConsumerProofs.

(** ** The propagator *)

Module PropagatorProofs.
Import Propagator Examples.

Section Random.
Variable rng : Type.
Variable randbelow : rng -> nat -> nat * rng.
Context {client : HttpClient}.

(** [_randbelow(n)] answers below [n]. *)
Hypothesis randbelow_lt :
  forall g n, (0 < n)%nat -> ((randbelow g n).1 < n)%nat.

(** The loop has no exit of its own: however long it is observed, it has
    not returned. *)
Lemma loop_not_Returned ticks self (w w' : world rng) :
  loop randbelow ticks self w <> Return Returned w'.
Proof.
  revert w. induction ticks as [|n IH]; intros w; [done|].
  cbn [loop]. unfold bind.
  destruct (get_random_event randbelow self w) as [ev w1|]; [|done].
  destruct ((if truthy ev then send_event self ev else ret ()) w1) as [[] w2|]; [|done].
  destruct (lift (getitem (config self) "interval_seconds") w2) as [iv w3|]; [|done].
  destruct (sleep iv w3) as [[|] w4|]; [apply IH|done|done].
Qed.

(** C6: on the empty catalog [get_random_event] returns [None] and
    touches nothing.  On a non-empty one it asks the generator for one
    index below the length of the catalog and returns the element at that
    very index, so an element of the catalog; the draw is the only thing
    the call consumes or changes (the catalog and everything else in the
    world stay as they were, so the next call chooses again among all the
    elements). *)
Theorem get_random_event_in_catalog self l (w : world rng) :
  events self = VList l ->
  (l = [] -> get_random_event randbelow self w = Return VNone w) ∧
  (l <> [] ->
   exists e,
     l !! (randbelow (random w) (length l)).1 = Some e ∧
     e ∈ l ∧
     get_random_event randbelow self w =
       Return e {| yaml_files := yaml_files w; json_files := json_files w;
                   random := (randbelow (random w) (length l)).2;
                   actions := actions w |}).
Proof.
  intros Hev. unfold get_random_event. rewrite Hev. split.
  - intros ->. reflexivity.
  - intros Hne.
    assert (Hlen : (0 < length l)%nat) by (destruct l; [done | simpl; lia]).
    assert (Hnz : (length l =? 0)%nat = false) by (apply Nat.eqb_neq; lia).
    pose proof (randbelow_lt (random w) (length l) Hlen) as Hk.
    destruct (lookup_lt_is_Some_2 l _ Hk) as [e He].
    exists e. split; [done|]. split; [by eapply list_elem_of_lookup_2|].
    cbn [truthy]. rewrite Hnz. cbn [negb].
    unfold choice, bind, draw. cbn [py_len lift ret]. rewrite Hnz.
    destruct (randbelow (random w) (length l)) as [k g] eqn:Hd.
    cbn [fst snd index] in He |- *. rewrite He. reflexivity.
Qed.

(** C7: started on an empty catalog, [start] returns at once, however
    long it is observed, and leaves the world as it found it: no POST and
    no sleep was performed. *)
Theorem start_on_empty_catalog_returns ticks self (w : world rng) :
  truthy (events self) = false ->
  start randbelow ticks self w = Return Returned w ∧
  sends (actions (world_of (start randbelow ticks self w))) = sends (actions w).
Proof.
  intros Hempty. unfold start. rewrite Hempty. split; reflexivity.
Qed.

(** C8 (amended): loading the catalog does not fail when the events file
    is missing or when reading it raises [json.JSONDecodeError]:
    [load_events] returns the empty list and changes nothing, and [start]
    on that catalog returns at once without a send. *)
Theorem load_events_missing_or_malformed config path (w : world rng) :
  getitem config "events_file" = inr (VStr path) ->
  json_files w !! path = None ∨
    (exists msg, json_files w !! path = Some (inl (JSONDecodeError msg))) ->
  load_events config w = Return (VList []) w ∧
  forall ticks,
    start randbelow ticks {| config := config; events := VList [] |} w =
      Return Returned w.
Proof.
  intros Hfile Hsrc. split; [|reflexivity].
  unfold load_events, bind, try_except, open. rewrite Hfile. simpl.
  destruct Hsrc as [-> | [msg ->]]; reflexivity.
Qed.

End Random.

(** *** The claims at concrete inputs *)

Lemma counter_randbelow_lt g n :
  (0 < n)%nat -> ((counter_randbelow g n).1 < n)%nat.
Proof. intros Hn. simpl. apply Nat.mod_upper_bound. lia. Qed.

(** Two ticks on a catalog of two events, from counter 0: the first
    event, a sleep, the second event, a sleep, and the loop goes on. *)
(** The length of text is counted in characters, not in bytes. *)
Example len_counts_characters :
  py_len (VStr e_acute) = inr 1%nat ∧ py_len (VStr surrogate) = inr 1%nat ∧
  py_len (VStr "login") = inr 5%nat.
Proof. vm_compute. auto. Qed.

(** An interval beyond the range of a float ends the loop at the first
    sleep, after the one send before it. *)
Example start_overflowing_interval :
  start counter_randbelow 3
        {| config := VDict {[ "interval_seconds" := VInt (2 ^ 1024);
                              "api_endpoint" := VStr "http://localhost:8001/event";
                              "events_file" := VStr "events.json" ]};
           events := catalog |}
        (sources ∅ 0) =
    Raise (OverflowError "int too large to convert to float")
      {| yaml_files := ∅; json_files := ∅; random := 1%nat;
         actions := [ Post "http://localhost:8001/event" login_event ] |}.
Proof. vm_compute. reflexivity. Qed.

Example start_two_ticks :
  start counter_randbelow 2 (propagator0 catalog) (sources ∅ 0) =
    Return Running
      {| yaml_files := ∅; json_files := ∅; random := 2%nat;
         actions := [ Post "http://localhost:8001/event" login_event;
                      Sleep (VInt 5);
                      Post "http://localhost:8001/event" logout_event;
                      Sleep (VInt 5) ] |}.
Proof. vm_compute. reflexivity. Qed.

(** The path of one event through both services: a catalog of one event,
    one tick, and the POST handed to a consumer on a fresh store leaves
    exactly one row, with id 1. *)
Example one_tick_end_to_end :
  actions (world_of (start counter_randbelow 1 (propagator0 (VList [login_event]))
                       (sources ∅ 0))) =
    [ Post "http://localhost:8001/event" login_event; Sleep (VInt 5) ] ∧
  Store.table_at
    (Consumer.post_event str_demo consumer0 {| Consumer.json := inr login_event |}
       noon fresh).2 "events.db" =
    Some {| Store.rows := [ {| Store.id := 1;
                               Store.event_type := "login";
                               Store.event_payload := "user123";
                               Store.received_at := "2025-06-01T12:00:00.000000";
                               Store.created_at := "2025-06-01 10:00:00" |} ];
            Store.seq := 1 |}.
Proof. vm_compute. auto. Qed.

Lemma get_random_event_in_catalog_witness :
  get_random_event counter_randbelow (propagator0 (VList [])) (sources ∅ 3) =
    Return VNone (sources ∅ 3) ∧
  get_random_event counter_randbelow (propagator0 catalog) (sources ∅ 3) =
    Return logout_event (sources ∅ 4).
Proof.
  split.
  - exact (proj1 (get_random_event_in_catalog nat counter_randbelow counter_randbelow_lt
                    (propagator0 (VList [])) [] (sources ∅ 3) eq_refl) eq_refl).
  - destruct (proj2 (get_random_event_in_catalog nat counter_randbelow
                       counter_randbelow_lt (propagator0 catalog)
                       [login_event; logout_event] (sources ∅ 3) eq_refl)
                ltac:(discriminate)) as (e & He & _ & Hget).
    vm_compute in He. injection He as <-. exact Hget.
Defined.

Lemma start_on_empty_catalog_returns_witness :
  truthy (VList []) = false ∧
  start counter_randbelow 5 (propagator0 (VList [])) (sources ∅ 0) =
    Return Returned (sources ∅ 0).
Proof.
  split; [reflexivity|].
  exact (proj1 (start_on_empty_catalog_returns nat counter_randbelow 5
                  (propagator0 (VList [])) (sources ∅ 0) eq_refl)).
Defined.

Lemma load_events_missing_or_malformed_witness :
  load_events default_config (sources ∅ 0) = Return (VList []) (sources ∅ 0) ∧
  load_events default_config (sources broken_source 0) =
    Return (VList []) (sources broken_source 0) ∧
  start counter_randbelow 5 (propagator0 (VList [])) (sources broken_source 0) =
    Return Returned (sources broken_source 0).
Proof.
  destruct (load_events_missing_or_malformed nat counter_randbelow default_config
              "events.json" (sources ∅ 0) eq_refl ltac:(left; reflexivity))
    as [H1 _].
  destruct (load_events_missing_or_malformed nat counter_randbelow default_config
              "events.json" (sources broken_source 0) eq_refl
              ltac:(right; eexists; reflexivity)) as [H2 H3].
  split; [exact H1|]. split; [exact H2 | exact (H3 5%nat)].
Defined.

(** C8 as stated fails: with the events file missing, and with an events
    file that is not JSON, [load_events] raises nothing; it returns the
    empty list.  And a failed load is not always harmless: an events file
    whose bytes are not text, and one that holds a number, end
    [load_events] with an exception that no clause takes, so no catalog,
    empty or not, comes out of it. *)
Lemma load_events_counterexample :
  load_events default_config (sources ∅ 0) = Return (VList []) (sources ∅ 0) ∧
  load_events default_config (sources broken_source 0) =
    Return (VList []) (sources broken_source 0) ∧
  ~ (exists e w', load_events default_config (sources ∅ 0) = Raise e w') ∧
  ~ (exists e w', load_events default_config (sources broken_source 0) = Raise e w') ∧
  load_events default_config (sources binary_source 0) =
    Raise (UnicodeDecodeError "'utf-8' codec can't decode byte 0xff in position 0: invalid start byte")
          (sources binary_source 0) ∧
  load_events default_config (sources number_source 0) =
    Raise (TypeError "int") (sources number_source 0).
Proof.
  assert (H3 : load_events default_config (sources binary_source 0) =
    Raise (UnicodeDecodeError "'utf-8' codec can't decode byte 0xff in position 0: invalid start byte")
          (sources binary_source 0))
    by (vm_compute; reflexivity).
  assert (H4 : load_events default_config (sources number_source 0) =
               Raise (TypeError "int") (sources number_source 0))
    by (vm_compute; reflexivity).
  assert (H1 : load_events default_config (sources ∅ 0) = Return (VList []) (sources ∅ 0))
    by (vm_compute; reflexivity).
  assert (H2 : load_events default_config (sources broken_source 0) =
               Return (VList []) (sources broken_source 0))
    by (vm_compute; reflexivity).
  repeat split; try done.
  - intros (e & w' & H). rewrite H1 in H. discriminate.
  - intros (e & w' & H). rewrite H2 in H. discriminate.
Qed.

End PropagatorProofs.

(** * Further properties *)

(** ** The consumer *)

Module ConsumerExtra.
Import Store Consumer ConsumerProofs.

Lemma max_rowid_nonneg rs : 0 <= max_rowid rs.
Proof. induction rs; simpl; lia. Qed.

Lemma max_rowid_snoc rs r :
  max_rowid (rs ++ [r]) = Z.max (max_rowid rs) (Z.max (id r) 0).
Proof. induction rs as [|x rs IH]; simpl; [lia|]. rewrite IH. lia. Qed.

Lemma next_rowid_insert_row t ty payload received now :
  next_rowid (insert_row t (new_row t ty payload received now)) = next_rowid t + 1.
Proof.
  unfold next_rowid at 1. simpl. rewrite max_rowid_snoc. simpl.
  pose proof (max_rowid_nonneg (rows t)). unfold next_rowid. lia.
Qed.

Section Routes.
Variable str : exn -> string.

(** X2: every answer of [POST /event] has one of four shapes: the
    success body, one of the two 400 details, or the fixed 500; the 400
    answers leave the world exactly as it was.  No other status and no
    bare framework error can come out of the handler. *)
Theorem response_is_one_of_four self request now w :
  (exists n, (post_event str self request now w).1 =
               {| status_code := 200; content := success_body n |})
  ∨ (post_event str self request now w =
       (error_response 400 "Invalid JSON format", w))
  ∨ (exists errs,
       post_event str self request now w =
         (error_response 400 ("Invalid data format: " +:+ str (ValidationError errs)), w))
  ∨ ((post_event str self request now w).1 =
       error_response 500 "Internal server error").
Proof.
  destruct (json request) as [e|v] eqn:Hj.
  { destruct e.
    - right; left. by eapply not_json_is_400.
    - right; right; right. unfold post_event, receive_event, try_except,
        receive_event_try, bind, request_json. rewrite Hj. reflexivity. }
  destruct v as [| | | | | |d];
    try (right; right; right; unfold post_event, receive_event, try_except,
           receive_event_try, bind, request_json; rewrite Hj; reflexivity).
  destruct (is_str d "event_type" && is_str d "event_payload") eqn:Hv.
  - apply andb_prop in Hv as [H1 H2].
    apply is_str_true in H1 as [ty H1]. apply is_str_true in H2 as [pl H2].
    unfold post_event, receive_event, try_except.
    rewrite (receive_event_try_valid _ _ _ _ _ d ty pl) by done.
    pose proof (save_event_cases (db_manager self) ty pl now w) as Hs.
    destruct (save_event (db_manager self) ty pl now w) as [n w'|e w'].
    + left. by exists n.
    + right; right; right. destruct Hs as (Hu & _). destruct e; simpl in *; done.
  - right; right; left.
    destruct (receive_event_try_invalid str self request now w d Hj Hv)
      as (errs & _ & _ & _ & Heq).
    exists errs. unfold post_event, receive_event, try_except. rewrite Heq. reflexivity.
Qed.


Lemma accepted_cons request now response rest responses :
  accepted ((request, now) :: rest) (response :: responses) =
    match (if status_code response =? 200 then submitted request now else None) with
    | Some x => x :: accepted rest responses
    | None => accepted rest responses
    end.
Proof. reflexivity. Qed.

(** What serving does to the table at the consumer's path. *)
Lemma serve_store self p requests :
  db_path (db_manager self) = VStr p ->
  forall w t, table_at w p = Some t ->
    exists t' news,
      table_at (serve str self requests w).2 p = Some t' ∧
      rows t' = rows t ++ news ∧
      map stored_fields news = accepted requests (serve str self requests w).1 ∧
      event_ids (serve str self requests w).1 =
        map (fun i => next_rowid t + Z.of_nat i) (List.seq 0 (length news)).
Proof.
  intros Hp. induction requests as [|[request now] rest IH]; intros w t Ht.
  { exists t, []. simpl. by rewrite app_nil_r. }
  rewrite serve_cons. cbn [fst snd]. rewrite accepted_cons.
  destruct (post_event_cases str self request now w)
    as [(d & ty & pl & p0 & t0 & Hj & H1 & H2 & Hp0 & Ht0 & Hmax & Heq)
       | (Hne & Hid & Hsame & _)].
  - assert (p0 = p) as -> by congruence. assert (t0 = t) as -> by congruence.
    rewrite Heq. cbn [fst snd status_code].
    set (r := new_row t ty pl (datetime_now now) now).
    destruct (IH (saved w p t ty pl now) (insert_row t r))
      as (t' & news & Ht' & Hrows & Hacc & Hids).
    { unfold saved. by rewrite table_at_set_db_eq. }
    exists t', (r :: news). split; [done|]. split.
    { rewrite Hrows. simpl. by rewrite <- app_assoc. }
    split.
    { replace (200 =? 200) with true by reflexivity.
      unfold submitted. rewrite Hj, H1, H2. simpl. by rewrite Hacc. }
    unfold event_ids. cbn [omap list_omap]. rewrite success_body_event_id.
    fold (event_ids (serve str self rest (saved w p t ty pl now)).1).
    rewrite Hids. unfold r. rewrite next_rowid_insert_row.
    cbn [length List.seq map]. f_equal; [lia|].
    rewrite <- seq_shift, map_map. apply map_ext. intros i. lia.
  - destruct (IH (post_event str self request now w).2 t)
      as (t' & news & Ht' & Hrows & Hacc & Hids).
    { by rewrite Hsame. }
    exists t', news. split; [done|]. split; [done|]. split.
    { apply Z.eqb_neq in Hne. by rewrite Hne. }
    unfold event_ids. cbn [omap list_omap]. rewrite Hid. exact Hids.
Qed.

(** What serving does to any table: it only grows. *)
Lemma serve_grows self requests :
  forall w q t, table_at w q = Some t ->
    exists t' news,
      table_at (serve str self requests w).2 q = Some t' ∧
      rows t' = rows t ++ news ∧ seq t <= seq t' ∧
      (db_path (db_manager self) <> VStr q -> t' = t).
Proof.
  induction requests as [|[request now] rest IH]; intros w q t Ht.
  { exists t, []. simpl. rewrite app_nil_r. split; [done|]. split; [done|].
    split; [lia|done]. }
  rewrite serve_cons. cbn [fst snd].
  destruct (post_event_cases str self request now w)
    as [(d & ty & pl & p & t0 & _ & _ & _ & Hp & Ht0 & _ & Heq) | (_ & _ & Hsame & _)].
  - rewrite Heq. cbn [fst snd].
    destruct (decide (p = q)) as [->|Hpq].
    + assert (t0 = t) as -> by congruence.
      set (r := new_row t ty pl (datetime_now now) now).
      destruct (IH (saved w q t ty pl now) q (insert_row t r))
        as (t' & news & Ht' & Hrows & Hseq & _).
      { unfold saved. by rewrite table_at_set_db_eq. }
      exists t', (r :: news). split; [done|]. split.
      * rewrite Hrows. simpl. by rewrite <- app_assoc.
      * split; [|done]. simpl in Hseq. unfold next_rowid in Hseq. lia.
    + apply IH. unfold saved. by rewrite table_at_set_db_ne.
  - apply IH. by rewrite Hsame.
Qed.


(** X3: serving never removes or rewrites a stored row, at any path: the
    rows a table held are a prefix of the rows it holds afterwards, its
    sequence entry does not go down, and a table at a path other than the
    consumer's is left untouched. *)
Theorem served_store_is_append_only self requests w responses w' q t :
  serve str self requests w = (responses, w') ->
  table_at w q = Some t ->
  exists t' news,
    table_at w' q = Some t' ∧ rows t' = rows t ++ news ∧ seq t <= seq t' ∧
    (db_path (db_manager self) <> VStr q -> t' = t).
Proof.
  intros Hserve Ht. pose proof (serve_grows self requests w q t Ht) as H.
  by rewrite Hserve in H.
Qed.

(** X4: the rows appended while serving are exactly the submissions that
    were answered with a success, in the order of their requests, each
    with the event type, the payload and the reception time of its
    request. *)
Theorem stored_rows_are_the_accepted_submissions self requests w responses w' p t :
  serve str self requests w = (responses, w') ->
  db_path (db_manager self) = VStr p ->
  table_at w p = Some t ->
  exists t' news,
    table_at w' p = Some t' ∧ rows t' = rows t ++ news ∧
    map stored_fields news = accepted requests responses.
Proof.
  intros Hserve Hp Ht.
  destruct (serve_store self p requests Hp w t Ht) as (t' & news & H1 & H2 & H3 & _).
  rewrite Hserve in H1, H3. by exists t', news.
Qed.

(** X5: the ids answered while serving are consecutive, starting at the
    table's next id: a request that is refused or fails uses up no id. *)
Theorem event_ids_are_consecutive self requests w responses w' p t :
  serve str self requests w = (responses, w') ->
  db_path (db_manager self) = VStr p ->
  table_at w p = Some t ->
  event_ids responses =
    map (fun i => next_rowid t + Z.of_nat i) (List.seq 0 (length (event_ids responses))).
Proof.
  intros Hserve Hp Ht.
  destruct (serve_store self p requests Hp w t Ht) as (t' & news & _ & _ & _ & H).
  rewrite Hserve in H. cbn [fst] in H.
  assert (Hlen : length (event_ids responses) = length news).
  { rewrite H. by rewrite length_map, length_seq. }
  by rewrite Hlen.
Qed.

End Routes.

(** What a successful [init_database] has done. *)
Lemma init_database_Return self w w1 :
  init_database self w = Return tt w1 ->
  exists q, db_path self = VStr q ∧
    (forall p, p ≠ q -> dbs w1 !! p = dbs w !! p) ∧
    (is_private q = false -> dbs w !! q = None ->
     table_at w1 q = Some empty_table) ∧
    (forall p t, table_at w p = Some t -> table_at w1 p = Some t).
Proof.
  unfold init_database, bind, connect.
  destruct (db_path self) as [| | | |q| |]; try done.
  destruct (is_private q) eqn:Hq.
  { unfold execute_create_table, ret. intros [= <-]. exists q.
    split; [done|]. split; [done|]. split; [congruence|done]. }
  unfold execute_create_table.
  destruct (dbs w !! q) as [[| |[t|]]|] eqn:E; cbv beta iota;
    rewrite ?dbs_set_db_eq, ?E; try done; intros [= <-]; exists q;
    (split; [done|]).
  - split; [done|]. split; [congruence|]. done.
  - split; [intros p Hp; unfold set_db; simpl; by rewrite lookup_insert_ne|].
    split; [congruence|]. intros p t Ht.
    destruct (decide (q = p)) as [<-|Hne];
      [apply table_at_Some in Ht; congruence | by rewrite table_at_set_db_ne].
  - split; [intros p Hp; unfold set_db; simpl; by rewrite !lookup_insert_ne|].
    split; [intros _ _; by rewrite table_at_set_db_eq|]. intros p t Ht.
    destruct (decide (q = p)) as [<-|Hne];
      [apply table_at_Some in Ht; congruence | by rewrite !table_at_set_db_ne].
Qed.

Lemma truthy_VStr p : truthy (VStr p) = true <-> p <> "".
Proof. destruct p; simpl; split; done. Qed.

Lemma truthy_VInt n : truthy (VInt n) = true <-> n <> 0.
Proof. simpl. rewrite negb_true_iff. apply Z.eqb_neq. Qed.

(** Everything [main] has done when it gets as far as starting the
    server. *)
Lemma main_Return args w consumer port w' :
  main args w = Return (consumer, port) w' ->
  exists cfg d w1 path,
    load_config (Args.config args) w = Return cfg w ∧
    getitem cfg "database" = inr (VDict d) ∧
    init_database {| db_path := default (VStr "events.db") (d !! "path") |} w
      = Return tt w1 ∧
    db_manager consumer = {| db_path := path |} ∧
    getitem (config consumer) "database" = inr (VDict (<["path" := path]> d)) ∧
    getitem (config consumer) "port" = inr port ∧
    ((exists n, Args.port args = Some n ∧ n <> 0 ∧ port = VInt n) ∨
     ((Args.port args = None ∨ Args.port args = Some 0) ∧
      getitem cfg "port" = inr port)) ∧
    ((exists p, Args.db_path args = Some p ∧ p <> "" ∧ path = VStr p ∧
                init_database {| db_path := VStr p |} w1 = Return tt w') ∨
     ((Args.db_path args = None ∨ Args.db_path args = Some "") ∧
      d !! "path" = Some path ∧ w' = w1)).
Proof.
  intros H. unfold main in H.
  apply bind_Return in H as (c0 & w1 & Hinit & H).
  apply bind_Return in H as (c1 & w2 & Hport & H).
  apply bind_Return in H as (c2 & w3 & Hdb & H).
  (* construction *)
  unfold EventConsumer_init in Hinit.
  apply bind_Return in Hinit as (cfg & wa & Hcfg & Hinit).
  pose proof (load_config_world _ _ _ _ Hcfg) as Hwa. subst wa.
  apply bind_Return in Hinit as (database & wa & Hget & Hinit).
  apply lift_Return in Hget as [Hget Hwa]. subst wa.
  apply bind_Return in Hinit as (dm & wa & Hdm & Hinit).
  apply ret_Return in Hinit as [Hc0 Hwa]. subst wa c0.
  apply DatabaseManager_init_Return in Hdm as (d & Hd & Hdmeq & Hdm).
  subst database dm.
  (* the port override *)
  assert (Hc1 : db_manager c1 = {| db_path := default (VStr "events.db") (d !! "path") |}
                ∧ w2 = w1
                ∧ getitem (config c1) "database" = inr (VDict d)
                ∧ ((exists n, Args.port args = Some n ∧ n <> 0 ∧
                               getitem (config c1) "port" = inr (VInt n)) ∨
                   ((Args.port args = None ∨ Args.port args = Some 0) ∧
                    config c1 = cfg))).
  { destruct (Args.port args) as [n|].
    - destruct (truthy (VInt n)) eqn:Hn.
      + apply truthy_VInt in Hn.
        apply bind_Return in Hport as (cfg' & wa & Hset & Hport).
        apply lift_Return in Hset as [Hset Hwa]. subst wa.
        apply ret_Return in Hport as [Hc1 Hw]. subst c1 w2. simpl in *.
        split; [done|]. split; [done|]. split.
        * rewrite <- Hget. by eapply getitem_setitem_ne.
        * left. exists n. split; [done|]. split; [done|].
          by eapply getitem_setitem_eq.
      + apply ret_Return in Hport as [Hc1 Hw]. subst c1 w2. simpl.
        split; [done|]. split; [done|]. split; [done|]. right. split; [|done].
        right. f_equal. simpl in Hn. apply negb_false_iff, Z.eqb_eq in Hn. done.
    - apply ret_Return in Hport as [Hc1 Hw]. subst c1 w2. simpl.
      split; [done|]. split; [done|]. split; [done|]. right. split; [by left|done]. }
  destruct Hc1 as (Hdm1 & Hw2 & Hget1 & Hport1). subst w2.
  (* the last lookups *)
  apply bind_Return in H as (port' & wa & Hp & H).
  apply lift_Return in Hp as [Hp Hwa]. subst wa.
  apply bind_Return in H as (db' & wa & Hp2 & H).
  apply lift_Return in Hp2 as [Hp2 Hwa]. subst wa.
  apply bind_Return in H as (x & wa & Hp3 & H).
  apply lift_Return in Hp3 as [Hp3 Hwa]. subst wa.
  apply ret_Return in H as [Heq Hw']. injection Heq as Hcons Hport'. subst c2 port' w3.
  (* the path override *)
  destruct (Args.db_path args) as [p|] eqn:Hargs.
  - destruct (truthy (VStr p)) eqn:Htp.
    + apply truthy_VStr in Htp.
      apply bind_Return in Hdb as (database & wa & Hg & Hdb).
      apply lift_Return in Hg as [Hg Hwa]. subst wa.
      rewrite Hget1 in Hg. injection Hg as Hg. subst database.
      apply bind_Return in Hdb as (database' & wa & Hs & Hdb).
      apply lift_Return in Hs as [Hs Hwa]. subst wa.
      simpl in Hs. injection Hs as Hs. subst database'.
      apply bind_Return in Hdb as (cfg' & wa & Hs & Hdb).
      apply lift_Return in Hs as [Hs Hwa]. subst wa.
      apply bind_Return in Hdb as (dm' & wa & Hdm' & Hdb).
      apply ret_Return in Hdb as [Hc2 Hwa]. subst consumer wa.
      apply DatabaseManager_init_Return in Hdm' as (d' & Hd' & Hdm'eq & Hdm').
      injection Hd' as Hd'. subst d' dm'.
      rewrite lookup_insert_eq in Hdm'. simpl in Hdm'.
      exists cfg, d, w1, (VStr p). simpl in *. rewrite lookup_insert_eq. simpl.
      split; [done|]. split; [done|]. split; [done|]. split; [done|].
      split; [by eapply getitem_setitem_eq|]. split; [done|].
      assert (Hsame : getitem cfg' "port" = getitem (config c1) "port")
        by by eapply getitem_setitem_ne.
      split.
      * destruct Hport1 as [(n & Ha & Hn & Hg) | [Ha Hc]].
        -- left. exists n. split; [done|]. split; [done|]. congruence.
        -- right. split; [done|]. congruence.
      * left. by exists p.
    + apply ret_Return in Hdb as [Hc2 Hwa]. subst consumer w'.
      assert (p = "") as -> by (destruct p; [done | discriminate]).
      rewrite Hget1 in Hp2. injection Hp2 as Hp2. subst db'.
      simpl in Hp3. destruct (d !! "path") as [y|] eqn:Hy; [|discriminate].
      injection Hp3 as Hp3. subst y.
      exists cfg, d, w1, x. rewrite Hy in *. simpl in *.
      split; [done|]. split; [done|]. split; [done|]. split; [done|].
      split; [by rewrite insert_id|]. split; [done|]. split.
      * destruct Hport1 as [(n & Ha & Hn & Hg) | [Ha Hc]].
        -- left. exists n. split; [done|]. split; [done|]. congruence.
        -- right. split; [done|]. congruence.
      * right. split; [by right|done].
  - apply ret_Return in Hdb as [Hc2 Hwa]. subst consumer w'.
    rewrite Hget1 in Hp2. injection Hp2 as Hp2. subst db'.
    simpl in Hp3. destruct (d !! "path") as [y|] eqn:Hy; [|discriminate].
    injection Hp3 as Hp3. subst y.
    exists cfg, d, w1, x. rewrite Hy in *. simpl in *.
    split; [done|]. split; [done|]. split; [done|]. split; [done|].
    split; [by rewrite insert_id|]. split; [done|]. split.
    * destruct Hport1 as [(n & Ha & Hn & Hg) | [Ha Hc]].
      -- left. exists n. split; [done|]. split; [done|]. congruence.
      -- right. split; [done|]. congruence.
    * right. split; [by left|done].
Qed.


(** X1: [load_config] falls back to the defaults only when the file is
    missing.  A file that decodes to a mapping gives its
    [event_consumer] section, or [KeyError] when it has none; a file that
    decodes to anything else gives [TypeError].  The world is never
    changed. *)
Theorem load_config_fallback config_file w :
  (yaml_files w !! config_file = None ->
   load_config config_file w = Return default_config w) ∧
  (forall d, yaml_files w !! config_file = Some (inr (VDict d)) ->
     load_config config_file w =
       match d !! "event_consumer" with
       | Some section => Return section w
       | None => Raise (KeyError (VStr "event_consumer")) w
       end) ∧
  (forall v, yaml_files w !! config_file = Some (inr v) ->
     (forall d, v <> VDict d) ->
     load_config config_file w = Raise (TypeError (type_name v)) w).
Proof.
  unfold load_config, try_except, bind, open. split; [|split].
  - intros ->. reflexivity.
  - intros d ->. simpl. destruct (d !! "event_consumer"); reflexivity.
  - intros v -> Hv. destruct v; try reflexivity. by destruct (Hv d).
Qed.

(** X6: the port [main] serves on is the value of [--port] when that is
    given and not 0, and the port of the configuration otherwise. *)
Theorem main_port args w consumer port w' :
  main args w = Return (consumer, port) w' ->
  match Args.port args with
  | Some n =>
      if n =? 0
      then exists cfg, load_config (Args.config args) w = Return cfg w ∧
                       getitem cfg "port" = inr port
      else port = VInt n
  | None => exists cfg, load_config (Args.config args) w = Return cfg w ∧
                        getitem cfg "port" = inr port
  end.
Proof.
  intros H. apply main_Return in H
    as (cfg & d & w1 & path & Hcfg & _ & _ & _ & _ & _ & Hport & _).
  destruct Hport as [(n & -> & Hn & ->) | [[-> | ->] Hp]].
  - apply Z.eqb_neq in Hn. by rewrite Hn.
  - by exists cfg.
  - simpl. by exists cfg.
Qed.


(** X8: an override that names a file ([":memory:"] and the empty name
    do not) which held nothing gets an id space of its own: after [main],
    the table there is empty and the first event accepted is answered
    with id 1, whatever the configured database holds. *)
Theorem override_to_fresh_path_starts_at_1 args p w consumer port w' :
  Args.db_path args = Some p -> is_private p = false ->
  dbs w !! p = None ->
  main args w = Return (consumer, port) w' ->
  table_at w' p = Some empty_table ∧
  forall str request now,
    status_code (post_event str consumer request now w').1 = 200 ->
    (post_event str consumer request now w').1 =
      {| status_code := 200; content := success_body 1 |}.
Proof.
  intros Hargs Hfile Hfresh H. apply main_Return in H
    as (cfg & d & w1 & path & _ & _ & Hinit1 & Hdm & _ & _ & _ & Hover).
  destruct Hover as [(p' & Hp' & _ & -> & Hinit2) | [[Hn | Hn] _]];
    [| congruence | rewrite Hn in Hargs; injection Hargs as <-; discriminate Hfile].
  assert (p' = p) as -> by congruence.
  assert (Htab : table_at w' p = Some empty_table).
  { apply init_database_Return in Hinit1 as (q1 & Hq1 & Hframe1 & Hnew1 & Hkeep1).
    apply init_database_Return in Hinit2 as (q2 & Hq2 & Hframe2 & Hnew2 & Hkeep2).
    simpl in Hq2. injection Hq2 as <-.
    destruct (decide (p = q1)) as [<-|Hpq].
    - by apply Hkeep2, Hnew1.
    - apply Hnew2; [done|]. rewrite Hframe1; done. }
  split; [done|]. intros str request now H200.
  destruct (post_event_cases str consumer request now w')
    as [(d0 & ty & pl & p0 & t0 & _ & _ & _ & Hp0 & Ht0 & _ & Heq) | (Hne200 & _)];
    [|done].
  rewrite Hdm in Hp0. simpl in Hp0. injection Hp0 as <-.
  rewrite Htab in Ht0. injection Ht0 as <-. by rewrite Heq.
Qed.

(** X9: when the schema cannot be initialised at the configured path,
    [main] ends with that exception, also when [--db-path] names a good
    location: the configured path is initialised before the override is
    looked at. *)
Theorem main_aborts_when_configured_path_fails args w cfg d e w1 :
  load_config (Args.config args) w = Return cfg w ->
  getitem cfg "database" = inr (VDict d) ->
  init_database {| db_path := default (VStr "events.db") (d !! "path") |} w
    = Raise e w1 ->
  main args w = Raise e w1.
Proof.
  intros Hcfg Hget Hinit.
  unfold main, EventConsumer_init, DatabaseManager_init.
  unfold bind at 1 2. rewrite Hcfg. unfold bind at 1. rewrite Hget. cbn [lift ret].
  unfold bind at 1 2. cbn [dict_get lift ret]. unfold bind at 1. by rewrite Hinit.
Qed.

(** X10: a configuration whose [database] section has no [path] lets the
    constructor initialise ["events.db"], but without a [--db-path]
    [main] never starts the server: the path it prints is looked up
    without a default, and the lookup raises [KeyError]. *)
Theorem missing_path_key_stops_main args w cfg d :
  load_config (Args.config args) w = Return cfg w ->
  getitem cfg "database" = inr (VDict d) ->
  d !! "path" = None ->
  Args.db_path args = None ∨ Args.db_path args = Some "" ->
  (forall consumer port w', main args w <> Return (consumer, port) w') ∧
  (forall w1 port,
     init_database {| db_path := VStr "events.db" |} w = Return tt w1 ->
     Args.port args = None ->
     getitem cfg "port" = inr port ->
     main args w = Raise (KeyError (VStr "path")) w1).
Proof.
  intros Hcfg Hget Hpath Hargs. split.
  - intros consumer port w' H. apply main_Return in H
      as (cfg' & d' & w1 & path & Hcfg' & Hget' & _ & _ & _ & _ & _ & Hover).
    rewrite Hcfg in Hcfg'. injection Hcfg' as <-.
    rewrite Hget in Hget'. injection Hget' as <-.
    destruct Hover as [(p & Hp & Hne & _) | (_ & Hsome & _)].
    + destruct Hargs as [Ha | Ha]; rewrite Ha in Hp; [done|].
      injection Hp as <-. done.
    + congruence.
  - intros w1 port Hinit Hport Hgp.
    assert (Hskip : match Args.db_path args with
                    | Some p => truthy (VStr p) = false
                    | None => True
                    end) by (destruct Hargs as [-> | ->]; done).
    unfold main, EventConsumer_init, DatabaseManager_init, bind.
    rewrite Hcfg, Hget. cbn [lift ret dict_get]. unfold ret at 1.
    rewrite Hpath. cbn [default]. rewrite Hinit. unfold ret at 1.
    rewrite Hport. unfold ret at 1.
    destruct (Args.db_path args) as [p|]; [rewrite Hskip|];
      unfold ret at 1; cbn [config]; rewrite Hgp, Hget; cbn [lift ret];
      unfold ret; simpl; rewrite Hpath; reflexivity.
Qed.


(** *** The properties at concrete inputs *)

Import Examples.

Lemma load_config_fallback_witness :
  load_config "config.yaml" bare = Return default_config bare ∧
  load_config "config.yaml" other_section =
    Raise (KeyError (VStr "event_consumer")) other_section.
Proof.
  split.
  - exact (proj1 (load_config_fallback "config.yaml" bare) eq_refl).
  - exact (proj1 (proj2 (load_config_fallback "config.yaml" other_section))
             {[ "event_propagator" := VDict ∅ ]} eq_refl).
Defined.

Lemma served_store_is_append_only_witness :
  exists t' news,
    table_at (serve str_demo consumer0 three_requests used).2 "events.db" = Some t' ∧
    rows t' = rows used_table ++ news ∧ seq used_table <= seq t' ∧
    (db_path (db_manager consumer0) <> VStr "events.db" -> t' = used_table).
Proof.
  exact (served_store_is_append_only str_demo consumer0 three_requests used _ _
           "events.db" used_table (surjective_pairing _) eq_refl).
Defined.

Lemma stored_rows_are_the_accepted_submissions_witness :
  accepted three_requests (serve str_demo consumer0 three_requests fresh).1 =
    [ ("login", "user123", "2025-06-01T12:00:00.000000");
      ("login", "user123", "2025-06-01T12:00:00.000000") ] ∧
  exists t' news,
    table_at (serve str_demo consumer0 three_requests fresh).2 "events.db" = Some t' ∧
    rows t' = rows empty_table ++ news ∧
    map stored_fields news =
      accepted three_requests (serve str_demo consumer0 three_requests fresh).1.
Proof.
  split; [vm_compute; reflexivity|].
  exact (stored_rows_are_the_accepted_submissions str_demo consumer0 three_requests
           fresh _ _ "events.db" empty_table (surjective_pairing _) eq_refl eq_refl).
Defined.

Lemma event_ids_are_consecutive_witness :
  event_ids (serve str_demo consumer0 three_requests used).1 = [42; 43] ∧
  event_ids (serve str_demo consumer0 three_requests used).1 =
    map (fun i => next_rowid used_table + Z.of_nat i)
        (List.seq 0 (length (event_ids (serve str_demo consumer0 three_requests used).1))).
Proof.
  split; [vm_compute; reflexivity|].
  exact (event_ids_are_consecutive str_demo consumer0 three_requests used _ _
           "events.db" used_table (surjective_pairing _) eq_refl eq_refl).
Defined.

Lemma main_port_witness :
  exists consumer w', main (no_override (Some 9100)) bare = Return (consumer, VInt 9100) w'.
Proof.
  destruct (main (no_override (Some 9100)) bare) as [[consumer port] w'|e w'] eqn:E;
    [|vm_compute in E; discriminate].
  pose proof (main_port _ _ _ _ _ E) as Hport. simpl in Hport. subst port.
  by exists consumer, w'.
Defined.


Lemma override_to_fresh_path_starts_at_1_witness :
  exists consumer w',
    main (override "other.db") used = Return (consumer, VInt 8001) w' ∧
    table_at w' "events.db" = Some used_table ∧
    table_at w' "other.db" = Some empty_table.
Proof.
  destruct (main (override "other.db") used) as [[consumer port] w'|e w'] eqn:E;
    [|vm_compute in E; discriminate].
  assert (port = VInt 8001 ∧ table_at w' "events.db" = Some used_table) as [-> Hold].
  { vm_compute in E. by injection E as _ <- <-. }
  exists consumer, w'. split; [reflexivity|]. split; [exact Hold|].
  exact (proj1 (override_to_fresh_path_starts_at_1 (override "other.db") "other.db"
                  used consumer (VInt 8001) w' eq_refl eq_refl eq_refl E)).
Defined.

Lemma main_aborts_when_configured_path_fails_witness :
  main (override "other.db") blocked =
    Raise (OperationalError "unable to open database file") blocked.
Proof.
  exact (main_aborts_when_configured_path_fails (override "other.db") blocked
           default_config
           {[ "type" := VStr "sqlite"; "path" := VStr "events.db" ]}
           _ _ eq_refl eq_refl eq_refl).
Defined.

Lemma missing_path_key_stops_main_witness :
  main (no_override None) pathless =
    Raise (KeyError (VStr "path"))
          (set_db "events.db" (Database (Some empty_table))
             (set_db "events.db" (Database None) pathless)).
Proof.
  exact (proj2 (missing_path_key_stops_main (no_override None) pathless
                  pathless_section {[ "type" := VStr "sqlite" ]}
                  eq_refl eq_refl eq_refl (or_introl eq_refl))
               _ (VInt 9000) eq_refl eq_refl eq_refl).
Defined.

End ConsumerExtra.

(** ** The propagator *)

Module PropagatorExtra.
Import Propagator.

Lemma tick_actions_cons url iv e chosen :
  tick_actions url iv (e :: chosen) =
    (if truthy e then [Post url e; Sleep iv] else [Sleep iv])
      ++ tick_actions url iv chosen.
Proof. reflexivity. Qed.

Lemma tick_actions_falsy url iv chosen :
  Forall (fun e => truthy e = false) chosen ->
  tick_actions url iv chosen = replicate (length chosen) (Sleep iv).
Proof.
  induction 1 as [|e chosen He _ IH]; [done|].
  rewrite tick_actions_cons, He, IH. reflexivity.
Qed.

Section Random.
Variable rng : Type.
Variable randbelow : rng -> nat -> nat * rng.
Context {client : HttpClient}.
Hypothesis randbelow_lt :
  forall g n, (0 < n)%nat -> ((randbelow g n).1 < n)%nat.

Lemma extend_nil (w : world rng) : extend w [] (random w) = w.
Proof. destruct w. unfold extend. simpl. by rewrite app_nil_r. Qed.

Lemma extend_extend (w : world rng) a1 g1 a2 g2 :
  extend (extend w a1 g1) a2 g2 = extend w (a1 ++ a2) g2.
Proof. unfold extend. simpl. by rewrite app_assoc. Qed.

(** One choice from a non-empty list catalog. *)
Lemma get_random_event_list self l (w : world rng) :
  events self = VList l -> l <> [] ->
  exists e g, e ∈ l ∧ get_random_event randbelow self w = Return e (extend w [] g).
Proof.
  intros Hev Hne.
  assert (Hlen : (0 < length l)%nat) by (destruct l; [done | simpl; lia]).
  assert (Hnz : (length l =? 0)%nat = false) by (apply Nat.eqb_neq; lia).
  pose proof (randbelow_lt (random w) (length l) Hlen) as Hk.
  destruct (lookup_lt_is_Some_2 l _ Hk) as [e He].
  exists e, (randbelow (random w) (length l)).2.
  split; [by eapply list_elem_of_lookup_2|].
  unfold get_random_event. rewrite Hev. cbn [truthy]. rewrite Hnz. cbn [negb].
  unfold choice, bind, draw. cbn [py_len lift ret]. rewrite Hnz.
  destruct (randbelow (random w) (length l)) as [k g] eqn:Hd.
  cbn [fst snd index] in He |- *. rewrite He. unfold extend. simpl.
  by rewrite app_nil_r.
Qed.

(** [send_event] of an event the client can encode, to an endpoint it
    accepts. *)
Lemma send_event_post self url e (w : world rng) :
  getitem (config self) "api_endpoint" = inr (VStr url) ->
  accepts_url url = true -> json_encodable e = true ->
  send_event self e w = Return tt (extend w [Post url e] (random w)).
Proof.
  intros Hurl Hacc Henc. apply andb_prop in Henc as [Hfin Htext].
  unfold send_event, try_except, bind. rewrite Hurl. cbn [lift ret post].
  rewrite Hfin, Htext, Hacc. reflexivity.
Qed.

Lemma sleep_steady iv (w : world rng) :
  steady iv = true -> sleep iv w = Return true (extend w [Sleep iv] (random w)).
Proof.
  destruct iv as [|b|n|f| | |]; try done.
  - cbn [steady sleep]. intros Hn. apply Z.ltb_lt in Hn.
    destruct (FLOAT_LIMIT <=? n) eqn:E; [apply Z.leb_le in E; lia | reflexivity].
  - by destruct f as [|[]| |].
Qed.

(** The loop over a catalog of falsy events only sleeps. *)
Lemma loop_falsy self l iv :
  events self = VList l -> l <> [] ->
  Forall (fun e => truthy e = false) l ->
  getitem (config self) "interval_seconds" = inr iv ->
  steady iv = true ->
  forall ticks (w : world rng),
    exists g,
      loop randbelow ticks self w =
        Return Running (extend w (replicate ticks (Sleep iv)) g).
Proof.
  intros Hev Hne Hfalsy Hiv Hnum. induction ticks as [|n IH]; intros w.
  { exists (random w). simpl. unfold ret. by rewrite extend_nil. }
  destruct (get_random_event_list self l w Hev Hne) as (e & g & He & Hget).
  rewrite Forall_forall in Hfalsy. specialize (Hfalsy e He).
  cbn [loop]. unfold bind at 1. rewrite Hget.
  unfold bind at 1. rewrite Hfalsy. unfold ret at 1.
  unfold bind at 1. rewrite Hiv. cbn [lift ret].
  unfold bind at 1. rewrite sleep_steady by done. rewrite extend_extend.
  cbn [random extend].
  match goal with |- context [loop randbelow n self ?w1] =>
    destruct (IH w1) as (g' & Hloop); rewrite Hloop
  end.
  exists g'. f_equal. unfold extend. simpl. f_equal. by rewrite <- !app_assoc.
Qed.

(** The trace of [ticks] iterations of the loop over a list catalog. *)
Lemma loop_trace self l url iv :
  events self = VList l -> l <> [] ->
  getitem (config self) "api_endpoint" = inr (VStr url) ->
  accepts_url url = true ->
  Forall (fun e => json_encodable e = true) l ->
  getitem (config self) "interval_seconds" = inr iv ->
  steady iv = true ->
  forall ticks (w : world rng),
    exists chosen g,
      length chosen = ticks ∧ Forall (fun e => e ∈ l) chosen ∧
      loop randbelow ticks self w =
        Return Running (extend w (tick_actions url iv chosen) g).
Proof.
  intros Hev Hne Hurl Hacc Henc Hiv Hnum. induction ticks as [|n IH]; intros w.
  { exists [], (random w). split; [done|]. split; [done|].
    simpl. unfold ret. by rewrite extend_nil. }
  destruct (get_random_event_list self l w Hev Hne) as (e & g & He & Hget).
  cbn [loop]. unfold bind at 1. rewrite Hget.
  unfold bind at 1.
  assert (Hsend : (if truthy e then send_event self e else ret ()) (extend w [] g) =
                  Return tt (extend w (if truthy e then [Post url e] else []) g)).
  { destruct (truthy e).
    - rewrite (send_event_post self url); [by rewrite extend_extend | done | done |].
      rewrite Forall_forall in Henc. by apply Henc.
    - reflexivity. }
  rewrite Hsend. unfold bind at 1. rewrite Hiv. cbn [lift ret].
  unfold bind at 1. rewrite sleep_steady by done. rewrite extend_extend.
  cbn [random extend].
  match goal with |- context [loop randbelow n self ?w1] =>
    destruct (IH w1) as (chosen & g' & Hlen & Hall & Hloop); rewrite Hloop
  end.
  exists (e :: chosen), g'. split; [simpl; by rewrite Hlen|].
  split; [by constructor|].
  f_equal. rewrite tick_actions_cons. unfold extend. simpl. f_equal.
  destruct (truthy e); simpl; by rewrite <- !app_assoc.
Qed.


Lemma propagator_load_config_world config_file (w : world rng) cfg w0 :
  load_config config_file w = Return cfg w0 -> w0 = w.
Proof.
  unfold load_config, try_except, bind, open.
  destruct (yaml_files w !! config_file) as [[e|v]|]; simpl.
  - destruct e; simpl; unfold ret; intros [=]; done.
  - destruct (getitem v "event_propagator") as [e|x]; simpl.
    + destruct e; simpl; unfold ret; intros [=]; done.
    + unfold ret; intros [=]; done.
  - unfold ret; intros [=]; done.
Qed.

Lemma load_events_Return cfg (w : world rng) ev w0 :
  load_events cfg w = Return ev w0 -> w0 = w ∧ exists c, cfg = VDict c.
Proof.
  unfold load_events. intros H.
  apply bind_Return in H as (f & wa & Hf & H).
  apply lift_Return in Hf as [Hf ->].
  split; [|destruct cfg; try discriminate; eauto].
  unfold try_except, bind, open in H.
  destruct f as [| | | |path| |]; simpl in H; try discriminate.
  destruct (json_files w !! path) as [[e|v]|]; simpl in H.
  - destruct e; simpl in H; unfold ret in H; congruence.
  - destruct (py_len v) as [e|n]; simpl in H.
    + destruct e; simpl in H; unfold ret in H; congruence.
    + unfold ret in H; congruence.
  - unfold ret in H; congruence.
Qed.

Lemma EventPropagator_init_Return config_file (w : world rng) p0 w0 :
  EventPropagator_init config_file w = Return p0 w0 ->
  w0 = w ∧ exists c, config p0 = VDict c.
Proof.
  unfold EventPropagator_init. intros H.
  apply bind_Return in H as (cfg & wa & Hcfg & H).
  apply propagator_load_config_world in Hcfg. subst wa.
  apply bind_Return in H as (ev & wa & Hev & H).
  apply load_events_Return in Hev as [-> Hc].
  apply ret_Return in H as [<- ->]. done.
Qed.

(** X11: [load_events] hands back, unchanged, what the events file decodes
    to when that is a string, a list or an object; when it is a number, a
    boolean or [null], the length taken for the message raises
    [TypeError], which no clause catches: the catalog is not replaced by
    the empty list. *)
Theorem load_events_decoded config path v (w : world rng) :
  getitem config "events_file" = inr (VStr path) ->
  json_files w !! path = Some (inr v) ->
  load_events config w =
    match v with
    | VStr _ | VList _ | VDict _ => Return v w
    | _ => Raise (TypeError (type_name v)) w
    end.
Proof.
  intros Hfile Hsrc. unfold load_events, bind, try_except, open.
  rewrite Hfile. simpl. rewrite Hsrc. destruct v; reflexivity.
Qed.

(** X20: an exception raised while the events file is opened and read,
    other than [FileNotFoundError] and [json.JSONDecodeError], leaves
    [load_events] as it is: the empty list is not returned in its
    place. *)
Theorem load_events_propagates config path e (w : world rng) :
  getitem config "events_file" = inr (VStr path) ->
  json_files w !! path = Some (inl e) ->
  (forall file, e <> FileNotFoundError file) ->
  (forall msg, e <> JSONDecodeError msg) ->
  load_events config w = Raise e w.
Proof.
  intros Hfile Hsrc Hmissing Hjson. unfold load_events, bind, try_except, open.
  rewrite Hfile. simpl. rewrite Hsrc. simpl.
  destruct e; try reflexivity; exfalso;
    first [ by eapply Hmissing | by eapply Hjson ].
Qed.

(** X12: [start] returns exactly when the catalog is empty, and then with
    the world as it found it; on any other catalog, however long it is
    observed, it has not returned. *)
Theorem start_returns_iff_catalog_empty ticks self (w w' : world rng) :
  start randbelow ticks self w = Return Returned w' <->
  truthy (events self) = false ∧ w' = w.
Proof.
  unfold start. split.
  - destruct (truthy (events self)) eqn:Ht; simpl.
    + intros H. exfalso.
      apply bind_Return in H as (x1 & w1 & _ & H).
      apply bind_Return in H as (x2 & w2 & _ & H).
      apply bind_Return in H as (x3 & w3 & _ & H).
      by apply PropagatorProofs.loop_not_Returned in H.
    + unfold ret. intros [= <-]. done.
  - intros [-> ->]. reflexivity.
Qed.

(** Over a non-empty list catalog and a configuration holding both
    keys, [start] is its loop. *)
Lemma start_is_loop self l ep iv ticks (w : world rng) :
  events self = VList l -> l <> [] ->
  getitem (config self) "api_endpoint" = inr ep ->
  getitem (config self) "interval_seconds" = inr iv ->
  start randbelow ticks self w = loop randbelow ticks self w.
Proof.
  intros Hev Hne Hurl Hiv. unfold start. rewrite Hev. cbn [truthy].
  destruct l; [done|]. cbn [length Nat.eqb negb].
  unfold bind. rewrite Hurl, Hiv. reflexivity.
Qed.

(** X13: over a non-empty list catalog whose events the client can
    encode as JSON, with an endpoint the client accepts and an interval
    that is a boolean or an integer within the range of [float], [start]
    does not raise, and after [ticks] iterations it has done this and
    nothing else: for each tick, one event chosen from the catalog,
    posted to the configured endpoint if it is truthy, and then one sleep
    of the configured interval.  So there is at most one POST per tick
    and a sleep after each. *)
Theorem start_trace self l url iv ticks (w : world rng) :
  events self = VList l -> l <> [] ->
  Forall (fun e => json_encodable e = true) l ->
  getitem (config self) "api_endpoint" = inr (VStr url) ->
  accepts_url url = true ->
  getitem (config self) "interval_seconds" = inr iv ->
  steady iv = true ->
  exists chosen g,
    length chosen = ticks ∧ Forall (fun e => e ∈ l) chosen ∧
    start randbelow ticks self w =
      Return Running (extend w (tick_actions url iv chosen) g).
Proof.
  intros Hev Hne Henc Hurl Hacc Hiv Hnum.
  rewrite (start_is_loop self l (VStr url) iv) by done.
  by apply (loop_trace self l).
Qed.

(** X14: a catalog that is not empty but holds only falsy events (empty
    objects, [null], 0, empty strings) keeps the loop running without a
    single POST, whatever the endpoint is: with an interval that is a
    boolean or an integer within the range of [float], every tick is a
    sleep. *)
Theorem falsy_catalog_never_sent self l ep iv ticks (w : world rng) :
  events self = VList l -> l <> [] ->
  Forall (fun e => truthy e = false) l ->
  getitem (config self) "api_endpoint" = inr ep ->
  getitem (config self) "interval_seconds" = inr iv ->
  steady iv = true ->
  exists g,
    start randbelow ticks self w =
      Return Running (extend w (replicate ticks (Sleep iv)) g).
Proof.
  intros Hev Hne Hfalsy Hurl Hiv Hnum.
  rewrite (start_is_loop self l ep iv) by done.
  by apply (loop_falsy self l iv).
Qed.

(** X15: [send_event] never raises, whatever the configuration holds: it
    returns having performed one POST to the configured endpoint, or
    having done nothing at all. *)
Theorem send_event_never_raises self event (w : world rng) :
  send_event self event w = Return tt w ∨
  exists url, getitem (config self) "api_endpoint" = inr (VStr url) ∧
              send_event self event w = Return tt (extend w [Post url event] (random w)).
Proof.
  unfold send_event, try_except, bind.
  destruct (getitem (config self) "api_endpoint") as [e|v] eqn:Hurl; simpl.
  - by left.
  - destruct v as [| | | |url| |]; try (by left). unfold post.
    destruct (dumpable event); cbn [negb]; [|by left].
    destruct (encodable_text event); cbn [negb]; [|by left].
    destruct (accepts_url url); [|by left].
    right. by exists url.
Qed.

(** X16: a catalog that is a non-empty object rather than a list passes
    the emptiness test of [start], and the first choice raises
    [KeyError] on the drawn index; the exception leaves [start] before
    anything was sent. *)
Theorem dict_catalog_raises_KeyError self d ep iv ticks (w : world rng) :
  events self = VDict d -> size d <> 0%nat ->
  getitem (config self) "api_endpoint" = inr ep ->
  getitem (config self) "interval_seconds" = inr iv ->
  exists k g,
    start randbelow (S ticks) self w =
      Raise (KeyError (VInt (Z.of_nat k))) (extend w [] g).
Proof.
  intros Hev Hne Hurl Hiv.
  assert (Hnz : (size d =? 0)%nat = false) by by apply Nat.eqb_neq.
  exists (randbelow (random w) (size d)).1, (randbelow (random w) (size d)).2.
  unfold start. rewrite Hev. cbn [truthy]. rewrite Hnz. cbn [negb].
  unfold bind at 1 2 3. rewrite Hurl, Hiv. cbn [lift ret py_len].
  cbn [loop]. unfold bind at 1. unfold get_random_event. rewrite Hev.
  cbn [truthy]. rewrite Hnz. cbn [negb].
  unfold choice, bind, draw. cbn [py_len lift ret]. rewrite Hnz.
  destruct (randbelow (random w) (size d)) as [k g]. cbn [fst snd index lift raise].
  unfold extend. simpl. by rewrite app_nil_r.
Qed.

(** X17: with [--interval n] ([n] not 0 and within the range of
    [float]) and [--endpoint url] ([url] not empty and accepted by the
    client), the loop run by [main] sleeps [n] and posts to [url], on the
    catalog loaded at construction, when the client can encode its
    events. *)
Theorem main_uses_interval_and_endpoint args ticks (w : world rng) p0 w0 l n url :
  EventPropagator_init (Args.config args) w = Return p0 w0 ->
  events p0 = VList l -> l <> [] ->
  Forall (fun e => json_encodable e = true) l ->
  Args.interval args = Some n -> n <> 0 -> n < FLOAT_LIMIT ->
  Args.endpoint args = Some url -> url <> "" -> accepts_url url = true ->
  Args.events_file args = None ->
  exists chosen g,
    length chosen = ticks ∧ Forall (fun e => e ∈ l) chosen ∧
    main randbelow args ticks w =
      Return Running (extend w (tick_actions url (VInt n) chosen) g).
Proof.
  intros Hinit Hev Hne Henc Hint Hn Hlim Hend Hurl Hacc Hfile.
  assert (Hsteady : steady (VInt n) = true) by by apply Z.ltb_lt.
  destruct (EventPropagator_init_Return _ _ _ _ Hinit) as [-> [c Hc]].
  unfold main. unfold bind at 1. rewrite Hinit.
  rewrite Hint, Hend, Hfile.
  assert (truthy (VInt n) = true) as -> by (simpl; apply negb_true_iff, Z.eqb_neq; done).
  assert (truthy (VStr url) = true) as -> by (destruct url; done).
  rewrite Hc. cbn [setitem lift]. unfold bind, ret. cbn [config events setitem lift].
  unfold ret.
  match goal with |- context [start randbelow ticks ?p w] => set (p1 := p) end.
  rewrite (start_is_loop p1 l (VStr url) (VInt n));
    [| done | done | subst p1; simpl; by rewrite lookup_insert_eq
     | subst p1; simpl; rewrite lookup_insert_ne by done; by rewrite lookup_insert_eq].
  apply (loop_trace p1 l url (VInt n)); try done.
  - subst p1; simpl; by rewrite lookup_insert_eq.
  - subst p1; simpl; rewrite lookup_insert_ne by done; by rewrite lookup_insert_eq.
Qed.


(** X18: with [--events-file] naming a missing file, [main] returns at
    once and sends nothing, whatever catalog was loaded at construction
    and whatever the other options are: the reload replaces the catalog
    by the empty list. *)
Theorem main_events_file_missing args ticks (w : world rng) p0 w0 f :
  EventPropagator_init (Args.config args) w = Return p0 w0 ->
  Args.events_file args = Some f -> f <> "" ->
  json_files w !! f = None ->
  main randbelow args ticks w = Return Returned w.
Proof.
  intros Hinit Hfile Hf Hsrc.
  destruct (EventPropagator_init_Return _ _ _ _ Hinit) as [-> [c Hc]].
  destruct p0 as [cfg ev]. simpl in Hc. subst cfg.
  assert (Htf : truthy (VStr f) = true) by (destruct f; done).
  unfold main. unfold bind at 1. rewrite Hinit. rewrite Hfile, Htf.
  destruct (Args.interval args) as [n|]; [destruct (truthy (VInt n))|];
    (destruct (Args.endpoint args) as [u|]; [destruct (truthy (VStr u))|]);
    cbn [config events setitem lift bind ret];
    unfold bind, ret; cbn [config events setitem lift]; unfold ret;
    unfold load_events, bind, try_except, open; cbn [getitem];
    rewrite lookup_insert_eq; cbn [lift ret]; unfold ret; rewrite Hsrc;
    reflexivity.
Qed.

(** X19: with [--events-file] naming a file that holds a non-empty list
    of events the client can encode, and with a configured endpoint the
    client accepts and a configured interval that is a boolean or an
    integer within the range of [float], every event [main] sends comes
    from that list, not from the catalog loaded at construction. *)
Theorem main_events_file_replaces_catalog args ticks (w : world rng) p0 w0 c f l url iv :
  EventPropagator_init (Args.config args) w = Return p0 w0 ->
  config p0 = VDict c ->
  Args.interval args = None -> Args.endpoint args = None ->
  Args.events_file args = Some f -> f <> "" ->
  json_files w !! f = Some (inr (VList l)) -> l <> [] ->
  Forall (fun e => json_encodable e = true) l ->
  c !! "api_endpoint" = Some (VStr url) -> accepts_url url = true ->
  c !! "interval_seconds" = Some iv -> steady iv = true ->
  exists chosen g,
    length chosen = ticks ∧ Forall (fun e => e ∈ l) chosen ∧
    main randbelow args ticks w =
      Return Running (extend w (tick_actions url iv chosen) g).
Proof.
  intros Hinit Hc Hint Hend Hfile Hf Hsrc Hne Henc Hurl Hacc Hiv Hnum.
  destruct (EventPropagator_init_Return _ _ _ _ Hinit) as [-> _].
  destruct p0 as [cfg ev]. simpl in Hc. subst cfg.
  assert (Htf : truthy (VStr f) = true) by (destruct f; done).
  unfold main. unfold bind at 1. rewrite Hinit. rewrite Hint, Hend, Hfile, Htf.
  cbn [config events setitem lift bind ret].
  unfold bind, ret; cbn [config events setitem lift]; unfold ret.
  unfold load_events, bind, try_except, open; cbn [getitem].
  rewrite lookup_insert_eq; cbn [lift ret]; unfold ret; rewrite Hsrc.
  cbn [lift py_len ret]. unfold ret.
  match goal with |- context [start randbelow ticks ?p w] => set (p1 := p) end.
  assert (H1 : getitem (config p1) "api_endpoint" = inr (VStr url)).
  { subst p1; simpl. rewrite lookup_insert_ne by done. by rewrite Hurl. }
  assert (H2 : getitem (config p1) "interval_seconds" = inr iv).
  { subst p1; simpl. rewrite lookup_insert_ne by done. by rewrite Hiv. }
  rewrite (start_is_loop p1 l (VStr url) iv) by done.
  by apply (loop_trace p1 l url iv).
Qed.

End Random.

(** *** The properties at concrete inputs *)

Import Examples.

Lemma load_events_decoded_witness :
  load_events default_config (sources catalog_source 0) =
    Return catalog (sources catalog_source 0) ∧
  load_events default_config (sources number_source 0) =
    Raise (TypeError "int") (sources number_source 0).
Proof.
  split.
  - exact (load_events_decoded nat default_config "events.json" catalog
             (sources catalog_source 0) eq_refl eq_refl).
  - exact (load_events_decoded nat default_config "events.json" (VInt 5)
             (sources number_source 0) eq_refl eq_refl).
Defined.

Lemma load_events_propagates_witness :
  load_events default_config (sources binary_source 0) =
    Raise (UnicodeDecodeError "'utf-8' codec can't decode byte 0xff in position 0: invalid start byte")
          (sources binary_source 0).
Proof.
  exact (load_events_propagates nat default_config "events.json" _
           (sources binary_source 0) eq_refl eq_refl
           ltac:(discriminate) ltac:(discriminate)).
Defined.

Lemma start_returns_iff_catalog_empty_witness :
  start counter_randbelow 3 (propagator0 (VList [])) (sources ∅ 0) =
    Return Returned (sources ∅ 0) ∧
  start counter_randbelow 3 (propagator0 catalog) (sources ∅ 0) <>
    Return Returned (sources ∅ 0).
Proof.
  split.
  - exact (proj2 (start_returns_iff_catalog_empty nat counter_randbelow 3
                    (propagator0 (VList [])) (sources ∅ 0) (sources ∅ 0))
                 (conj eq_refl eq_refl)).
  - intros H.
    destruct (proj1 (start_returns_iff_catalog_empty nat counter_randbelow 3
                       (propagator0 catalog) (sources ∅ 0) (sources ∅ 0)) H)
      as [Hfalse _].
    discriminate Hfalse.
Defined.

Lemma start_trace_witness :
  exists chosen g,
    length chosen = 4%nat ∧
    Forall (fun e => e ∈ [login_event; logout_event]) chosen ∧
    start counter_randbelow 4 (propagator0 catalog) (sources ∅ 0) =
      Return Running
        (extend (sources ∅ 0)
           (tick_actions "http://localhost:8001/event" (VInt 5) chosen) g).
Proof.
  exact (start_trace nat counter_randbelow PropagatorProofs.counter_randbelow_lt
           (propagator0 catalog) [login_event; logout_event]
           "http://localhost:8001/event" (VInt 5) 4 (sources ∅ 0)
           eq_refl ltac:(discriminate) ltac:(repeat constructor)
           eq_refl eq_refl eq_refl eq_refl).
Defined.

Lemma falsy_catalog_never_sent_witness :
  exists g,
    start counter_randbelow 3 (propagator0 (VList falsy_catalog)) (sources ∅ 0) =
      Return Running (extend (sources ∅ 0) (replicate 3 (Sleep (VInt 5))) g).
Proof.
  exact (falsy_catalog_never_sent nat counter_randbelow
           PropagatorProofs.counter_randbelow_lt
           (propagator0 (VList falsy_catalog)) falsy_catalog
           (VStr "http://localhost:8001/event") (VInt 5) 3 (sources ∅ 0)
           eq_refl ltac:(discriminate) ltac:(repeat constructor)
           eq_refl eq_refl eq_refl).
Defined.

Lemma dict_catalog_raises_KeyError_witness :
  exists k g,
    start counter_randbelow 1 (propagator0 (VDict object_catalog)) (sources ∅ 0) =
      Raise (KeyError (VInt (Z.of_nat k))) (extend (sources ∅ 0) [] g).
Proof.
  exact (dict_catalog_raises_KeyError nat counter_randbelow
           (propagator0 (VDict object_catalog)) object_catalog
           (VStr "http://localhost:8001/event") (VInt 5) 0 (sources ∅ 0)
           eq_refl ltac:(vm_compute; discriminate) eq_refl eq_refl).
Defined.

Lemma main_uses_interval_and_endpoint_witness :
  exists chosen g,
    length chosen = 2%nat ∧
    Forall (fun e => e ∈ [login_event; logout_event]) chosen ∧
    main counter_randbelow
         (propagator_args (Some 2) (Some "http://example.test/event") None) 2
         (sources catalog_source 0) =
      Return Running
        (extend (sources catalog_source 0)
           (tick_actions "http://example.test/event" (VInt 2) chosen) g).
Proof.
  exact (main_uses_interval_and_endpoint nat counter_randbelow
           PropagatorProofs.counter_randbelow_lt
           (propagator_args (Some 2) (Some "http://example.test/event") None) 2
           (sources catalog_source 0) (propagator0 catalog) (sources catalog_source 0)
           [login_event; logout_event] 2 "http://example.test/event"
           ltac:(vm_compute; reflexivity) eq_refl ltac:(discriminate)
           ltac:(repeat constructor)
           eq_refl ltac:(discriminate) eq_refl
           eq_refl ltac:(discriminate) eq_refl eq_refl).
Defined.

Lemma main_events_file_missing_witness :
  main counter_randbelow (propagator_args None None (Some "missing.json")) 3
       (sources catalog_source 0) =
    Return Returned (sources catalog_source 0).
Proof.
  exact (main_events_file_missing nat counter_randbelow
           (propagator_args None None (Some "missing.json")) 3
           (sources catalog_source 0) (propagator0 catalog) (sources catalog_source 0)
           "missing.json" ltac:(vm_compute; reflexivity) eq_refl
           ltac:(discriminate) ltac:(vm_compute; reflexivity)).
Defined.

Lemma main_events_file_replaces_catalog_witness :
  exists chosen g,
    length chosen = 2%nat ∧
    Forall (fun e => e ∈ [signup_event]) chosen ∧
    main counter_randbelow (propagator_args None None (Some "more.json")) 2
         (sources two_sources 0) =
      Return Running
        (extend (sources two_sources 0)
           (tick_actions "http://localhost:8001/event" (VInt 5) chosen) g).
Proof.
  exact (main_events_file_replaces_catalog nat counter_randbelow
           PropagatorProofs.counter_randbelow_lt
           (propagator_args None None (Some "more.json")) 2
           (sources two_sources 0) (propagator0 catalog) (sources two_sources 0)
           _ "more.json" [signup_event] "http://localhost:8001/event" (VInt 5)
           ltac:(vm_compute; reflexivity) eq_refl eq_refl eq_refl eq_refl
           ltac:(discriminate) ltac:(vm_compute; reflexivity) ltac:(discriminate)
           ltac:(repeat constructor)
           ltac:(vm_compute; reflexivity) eq_refl
           ltac:(vm_compute; reflexivity) eq_refl).
Defined.

End PropagatorExtra.
